(** * Gklee expression core: a shallow embedding of [include/klee/Expr.h]

    The header declares the symbolic-expression classes of the engine: the
    [Expr] base class with its [Kind] enumeration and width constants, the
    terminal [ConstantExpr], and one class per non-terminal kind (three of
    the families are generated by the macros [CAST_EXPR_CLASS],
    [ARITHMETIC_EXPR_CLASS] and [COMPARISON_EXPR_CLASS]), together with
    [Array], [UpdateNode] and [UpdateList].

    Conventions of the embedding.
    - [unsigned] and [Width] values are integers in [0, 2^32) carried in [Z];
      every arithmetic operation of the header on them is followed by its
      wrap-around ([wrap32]).
    - [klee::ref<Expr>] is a shared, immutable, reference-counted pointer; a
      non-null reference is the expression value it points to, and a
      reference that may be null is an [option].
    - [assert] is modelled as in a build with assertions enabled (NDEBUG not
      defined, the configuration in which the header's [#ifndef NDEBUG]
      block is compiled): a failed assertion ends the call with
      [AssertionFailed].
    - Member functions that are only declared in the header (their bodies
      are in a translation unit outside this development) are either taken
      as parameters or modelled from the specification; every such
      definition says so in its comment. *)

From Stdlib Require Import ZArith List String Bool Lia Wf_nat.
From stdpp Require Import base option list.

Local Open Scope Z_scope.

(** ** Results of calls that may abort *)

(** A call either returns, stops at a failed [assert], or has no defined
    result (an operation the layer leaves undefined). *)
Inductive Outcome (A : Type) : Type :=
| Ret (a : A)
| AssertionFailed (msg : string)
| Undefined.

Arguments Ret {A} a.
Arguments AssertionFailed {A} msg.
Arguments Undefined {A}.

Global Instance Outcome_ret : MRet Outcome := fun A a => Ret a.
Global Instance Outcome_bind : MBind Outcome := fun A B k m =>
  match m with
  | Ret a => k a
  | AssertionFailed msg => AssertionFailed msg
  | Undefined => Undefined
  end.

(** [assert(c && "msg")] *)
Definition assert_ (c : bool) (msg : string) : Outcome unit :=
  if c then Ret tt else AssertionFailed msg.

Definition returns {A : Type} (m : Outcome A) : bool :=
  match m with Ret _ => true | _ => false end.

(** ** Machine integers *)

Definition wrap32 (x : Z) : Z := x mod 2 ^ 32.
Definition wrap64 (x : Z) : Z := x mod 2 ^ 64.

(** ** [class Expr]: kinds and widths *)

Module Expr.

Definition MAGIC_HASH_CONSTANT : Z := 39.

(** [typedef unsigned Width] and the named widths. *)
Definition InvalidWidth : Z := 0.
Definition Bool : Z := 1.
Definition Int8 : Z := 8.
Definition Int16 : Z := 16.
Definition Int32 : Z := 32.
Definition Int64 : Z := 64.
Definition Fl80 : Z := 80.

(** [enum Kind]; [InvalidKind = -1] is never the kind of a node. *)
Inductive Kind : Type :=
| Constant | NotOptimized | Read | Select | Concat | Extract
| ZExt | SExt
| Add | Sub | Mul | UDiv | SDiv | URem | SRem
| Not | And | Or | Xor | Shl | LShr | AShr
| Eq | Ne | Ult | Ule | Ugt | Uge | Slt | Sle | Sgt | Sge.

(** The enumerators' integer values ([Read = NotOptimized + 2]). *)
Definition kindValue (k : Kind) : Z :=
  match k with
  | Constant => 0 | NotOptimized => 1 | Read => 3 | Select => 4
  | Concat => 5 | Extract => 6 | ZExt => 7 | SExt => 8
  | Add => 9 | Sub => 10 | Mul => 11 | UDiv => 12 | SDiv => 13
  | URem => 14 | SRem => 15
  | Not => 16 | And => 17 | Or => 18 | Xor => 19 | Shl => 20
  | LShr => 21 | AShr => 22
  | Eq => 23 | Ne => 24 | Ult => 25 | Ule => 26 | Ugt => 27
  | Uge => 28 | Slt => 29 | Sle => 30 | Sgt => 31 | Sge => 32
  end.

Definition LastKind := Sge.
Definition CastKindFirst := ZExt.
Definition CastKindLast := SExt.
Definition BinaryKindFirst := Add.
Definition BinaryKindLast := Sge.
Definition CmpKindFirst := Eq.
Definition CmpKindLast := Sge.

End Expr.

Definition Width : Type := Z.

(** ** [llvm::APInt]

    The arbitrary-precision integer of LLVM is an external library type.
    It is modelled after its documented interface: a bit width and the
    value of the bit pattern read as an unsigned number, kept below
    [2 ^ BitWidth] by every constructor. *)
Record APInt : Type := mkAPInt { BitWidth : Z; VAL : Z }.

(** [APInt(numBits, val)] *)
Definition APInt_ctor (numBits : Z) (val : Z) : APInt :=
  {| BitWidth := numBits; VAL := val mod 2 ^ numBits |}.

Definition APInt_getBitWidth (a : APInt) : Z := BitWidth a.
(** [operator==] and [ult], used on operands of equal width. *)
Definition APInt_eq (a b : APInt) : bool := VAL a =? VAL b.
Definition APInt_ult (a b : APInt) : bool := VAL a <? VAL b.

(** [APInt::getZExtValue]: a single-word value is returned as it is; a
    wider one must have at most 64 active bits. *)
Definition APInt_getZExtValue (a : APInt) : Outcome Z :=
  if BitWidth a <=? 64 then Ret (VAL a)
  else
    assert_ (VAL a <? 2 ^ 64) "Too many bits for uint64_t" ;;
    Ret (wrap64 (VAL a)).

Definition APInt_wf (a : APInt) : bool :=
  (0 <=? VAL a) && (VAL a <? 2 ^ BitWidth a).

(** ** The expression classes *)

(** [const Array *]: the address of an array object. *)
Definition ArrayPtr : Type := Z.

(** Classes generated by [CAST_EXPR_CLASS]. *)
Inductive CAST_EXPR_CLASS : Type := SExtExpr | ZExtExpr.

(** Classes generated by [ARITHMETIC_EXPR_CLASS]. *)
Inductive ARITHMETIC_EXPR_CLASS : Type :=
| AddExpr | SubExpr | MulExpr | UDivExpr | SDivExpr | URemExpr | SRemExpr
| AndExpr | OrExpr | XorExpr | ShlExpr | LShrExpr | AShrExpr.

(** Classes generated by [COMPARISON_EXPR_CLASS]. *)
Inductive COMPARISON_EXPR_CLASS : Type :=
| EqExpr | NeExpr | UltExpr | UleExpr | UgtExpr | UgeExpr
| SltExpr | SleExpr | SgtExpr | SgeExpr.

(** One constructor per concrete class, with the class's data members.
    [BinaryExpr] carries the classes of the arithmetic macro and [CmpExpr]
    those of the comparison macro.  An [UpdateList] is a root array and the
    most recent [UpdateNode] (or null); an [UpdateNode] links to the
    previous one and caches the length of its chain. *)
Inductive Expr : Type :=
| ConstantExpr (value : APInt)
| NotOptimizedExpr (src : Expr)
| ReadExpr (updates : UpdateList) (index : Expr)
| SelectExpr (cond trueExpr falseExpr : Expr)
| ConcatExpr (width : Width) (left right : Expr)
| ExtractExpr (expr : Expr) (offset : Z) (width : Width)
| NotExpr (expr : Expr)
| CastExpr (cls : CAST_EXPR_CLASS) (src : Expr) (width : Width)
| BinaryExpr (cls : ARITHMETIC_EXPR_CLASS) (left right : Expr)
| CmpExpr (cls : COMPARISON_EXPR_CLASS) (left right : Expr)
with UpdateList : Type :=
| mkUpdateList (root : ArrayPtr) (head : UpdateNodeRef)
with UpdateNodeRef : Type :=
| NullNode
| UpdateNode (next : UpdateNodeRef) (index value : Expr) (size : Z).

Scheme Expr_mut := Induction for Expr Sort Prop
  with UpdateList_mut := Induction for UpdateList Sort Prop
  with UpdateNodeRef_mut := Induction for UpdateNodeRef Sort Prop.
Combined Scheme Expr_UpdateList_ind from Expr_mut, UpdateList_mut, UpdateNodeRef_mut.

Definition CAST_kind (c : CAST_EXPR_CLASS) : Expr.Kind :=
  match c with SExtExpr => Expr.SExt | ZExtExpr => Expr.ZExt end.

Definition ARITHMETIC_kind (c : ARITHMETIC_EXPR_CLASS) : Expr.Kind :=
  match c with
  | AddExpr => Expr.Add | SubExpr => Expr.Sub | MulExpr => Expr.Mul
  | UDivExpr => Expr.UDiv | SDivExpr => Expr.SDiv
  | URemExpr => Expr.URem | SRemExpr => Expr.SRem
  | AndExpr => Expr.And | OrExpr => Expr.Or | XorExpr => Expr.Xor
  | ShlExpr => Expr.Shl | LShrExpr => Expr.LShr | AShrExpr => Expr.AShr
  end.

Definition COMPARISON_kind (c : COMPARISON_EXPR_CLASS) : Expr.Kind :=
  match c with
  | EqExpr => Expr.Eq | NeExpr => Expr.Ne | UltExpr => Expr.Ult
  | UleExpr => Expr.Ule | UgtExpr => Expr.Ugt | UgeExpr => Expr.Uge
  | SltExpr => Expr.Slt | SleExpr => Expr.Sle | SgtExpr => Expr.Sgt
  | SgeExpr => Expr.Sge
  end.

(** *** Structural accessors *)

Definition getKind (e : Expr) : Expr.Kind :=
  match e with
  | ConstantExpr _ => Expr.Constant
  | NotOptimizedExpr _ => Expr.NotOptimized
  | ReadExpr _ _ => Expr.Read
  | SelectExpr _ _ _ => Expr.Select
  | ConcatExpr _ _ _ => Expr.Concat
  | ExtractExpr _ _ _ => Expr.Extract
  | NotExpr _ => Expr.Not
  | CastExpr c _ _ => CAST_kind c
  | BinaryExpr c _ _ => ARITHMETIC_kind c
  | CmpExpr c _ _ => COMPARISON_kind c
  end.

Fixpoint getWidth (e : Expr) : Width :=
  match e with
  | ConstantExpr value => APInt_getBitWidth value
  | NotOptimizedExpr src => getWidth src
  | ReadExpr _ _ => Expr.Int8
  | SelectExpr _ trueExpr _ => getWidth trueExpr
  | ConcatExpr width _ _ => width
  | ExtractExpr _ _ width => width
  | NotExpr expr => getWidth expr
  | CastExpr _ _ width => width
  | BinaryExpr _ l _ => getWidth l
  | CmpExpr _ _ _ => Expr.Bool
  end.

Definition getNumKids (e : Expr) : Z :=
  match e with
  | ConstantExpr _ => 0
  | NotOptimizedExpr _ => 1
  | ReadExpr _ _ => 1
  | SelectExpr _ _ _ => 3
  | ConcatExpr _ _ _ => 2
  | ExtractExpr _ _ _ => 1
  | NotExpr _ => 1
  | CastExpr _ _ _ => 1
  | BinaryExpr _ _ _ => 2
  | CmpExpr _ _ _ => 2
  end.

(** [getKid(i)]: the result is a reference that may be null ([None]). *)
Definition getKid (e : Expr) (i : Z) : option Expr :=
  match e with
  | ConstantExpr _ => None
  | NotOptimizedExpr src => Some src
  | ReadExpr _ index => if i =? 0 then Some index else None
  | SelectExpr cond trueExpr falseExpr =>
      if i =? 0 then Some cond
      else if i =? 1 then Some trueExpr
      else if i =? 2 then Some falseExpr
      else None
  | ConcatExpr _ l r =>
      if i =? 0 then Some l else if i =? 1 then Some r else None
  | ExtractExpr expr _ _ => Some expr
  | NotExpr expr => Some expr
  | CastExpr _ src _ => if i =? 0 then Some src else None
  | BinaryExpr _ l r =>
      if i =? 0 then Some l else if i =? 1 then Some r else None
  | CmpExpr _ l r =>
      if i =? 0 then Some l else if i =? 1 then Some r else None
  end.

(** The children in order, [getKid(0) .. getKid(getNumKids() - 1)]. *)
Definition kids (e : Expr) : list Expr :=
  match e with
  | ConstantExpr _ => []
  | NotOptimizedExpr src => [src]
  | ReadExpr _ index => [index]
  | SelectExpr cond trueExpr falseExpr => [cond; trueExpr; falseExpr]
  | ConcatExpr _ l r => [l; r]
  | ExtractExpr expr _ _ => [expr]
  | NotExpr expr => [expr]
  | CastExpr _ src _ => [src]
  | BinaryExpr _ l r => [l; r]
  | CmpExpr _ l r => [l; r]
  end.

(** [needsResultType()]: [false] in [Expr], overridden in [CastExpr]. *)
Definition needsResultType (e : Expr) : bool :=
  match e with CastExpr _ _ _ => true | _ => false end.

(** [isValidKidWidth(kid, w)]: overridden in [SelectExpr] only. *)
Definition isValidKidWidth (e : Expr) (kid : Z) (w : Width) : bool :=
  match e with
  | SelectExpr _ _ _ => if kid =? 0 then w =? Expr.Bool else true
  | _ => true
  end.

(** *** The [classof] predicates *)

Definition ConstantExpr_classof (e : Expr) : bool :=
  match e with ConstantExpr _ => true | _ => false end.
Definition NonConstantExpr_classof (e : Expr) : bool :=
  negb (ConstantExpr_classof e).
Definition CastExpr_classof (e : Expr) : bool :=
  let k := Expr.kindValue (getKind e) in
  (Expr.kindValue Expr.CastKindFirst <=? k) && (k <=? Expr.kindValue Expr.CastKindLast).
Definition BinaryExpr_classof (e : Expr) : bool :=
  let k := Expr.kindValue (getKind e) in
  (Expr.kindValue Expr.BinaryKindFirst <=? k) && (k <=? Expr.kindValue Expr.BinaryKindLast).
Definition CmpExpr_classof (e : Expr) : bool :=
  let k := Expr.kindValue (getKind e) in
  (Expr.kindValue Expr.CmpKindFirst <=? k) && (k <=? Expr.kindValue Expr.CmpKindLast).

(** *** [alloc]: the allocating constructors

    Each [alloc] runs the class constructor on its arguments and caches the
    hash; it inspects none of the operands. *)

Definition ConstantExpr_alloc (v : APInt) : Expr := ConstantExpr v.
(** [alloc(uint64_t v, Width w)] *)
Definition ConstantExpr_alloc64 (v : Z) (w : Width) : Expr :=
  ConstantExpr_alloc (APInt_ctor w v).
(** Modelled from the spec: [bits64::truncateToNBits] is defined outside
    the header; a constant's value is truncated to its width, so the
    function keeps the low [N] bits. *)
Definition truncateToNBits (x : Z) (N : Z) : Z := x mod 2 ^ N.
(** [create(v, w)] *)
Definition ConstantExpr_create (v : Z) (w : Width) : Outcome Expr :=
  assert_ (v =? truncateToNBits v w) "invalid constant" ;;
  Ret (ConstantExpr_alloc64 v w).

Definition NotOptimizedExpr_alloc (src : Expr) : Expr := NotOptimizedExpr src.
Definition ReadExpr_alloc (updates : UpdateList) (index : Expr) : Expr :=
  ReadExpr updates index.
Definition SelectExpr_alloc (c t f : Expr) : Expr := SelectExpr c t f.
(** The private constructor of [ConcatExpr] computes the width. *)
Definition ConcatExpr_ctor (l r : Expr) : Expr :=
  ConcatExpr (wrap32 (getWidth l + getWidth r)) l r.
Definition ConcatExpr_alloc (l r : Expr) : Expr := ConcatExpr_ctor l r.
Definition ExtractExpr_alloc (e : Expr) (o : Z) (w : Width) : Expr :=
  ExtractExpr e o w.
Definition NotExpr_alloc (e : Expr) : Expr := NotExpr e.
Definition CastExpr_alloc (c : CAST_EXPR_CLASS) (e : Expr) (w : Width) : Expr :=
  CastExpr c e w.
Definition BinaryExpr_alloc (c : ARITHMETIC_EXPR_CLASS) (l r : Expr) : Expr :=
  BinaryExpr c l r.
Definition CmpExpr_alloc (c : COMPARISON_EXPR_CLASS) (l r : Expr) : Expr :=
  CmpExpr c l r.

(** ** [ConstantExpr::getZExtValue] *)

Definition ConstantExpr_getWidth (value : APInt) : Width := APInt_getBitWidth value.

Definition ConstantExpr_getZExtValue (value : APInt) (bits : Z) : Outcome Z :=
  assert_ (ConstantExpr_getWidth value <=? bits) "Value may be out of range!" ;;
  APInt_getZExtValue value.

(** The default argument, [bits = 64]. *)
Definition ConstantExpr_getZExtValue_default (value : APInt) : Outcome Z :=
  ConstantExpr_getZExtValue value 64.

(** ** [class Array] *)

(** The data members of an array; [constantValues] holds the values of the
    [ref<ConstantExpr>] initialisers.  The cached hash, set by
    [computeHash()] (defined outside the header), is not used below and is
    left out. *)
Record Array : Type := mkArray {
  Array_name : string;
  Array_size : Z;
  Array_constantValues : list APInt
}.

Definition isSymbolicArray (a : Array) : bool :=
  match Array_constantValues a with [] => true | _ => false end.
Definition isConstantArray (a : Array) : bool := negb (isSymbolicArray a).
Definition getDomain (a : Array) : Width := Expr.Int32.
Definition getRange (a : Array) : Width := Expr.Int8.

(** The constructor.  [_size] is a [uint64_t] stored into the [unsigned]
    member [size]; the range [constantValuesBegin, constantValuesEnd) is the
    list [values] (both pointers default to null, the empty range). *)
Definition Array_ctor (_name : string) (_size : Z) (values : list APInt)
  : Outcome Array :=
  let this := {| Array_name := _name;
                 Array_size := wrap32 _size;
                 Array_constantValues := values |} in
  assert_ (isSymbolicArray this
           || (Z.of_nat (length (Array_constantValues this)) =? Array_size this))
          "Invalid size for constant array!" ;;
  assert_ (forallb (fun it => ConstantExpr_getWidth it =? getRange this) values)
          "Invalid initial constant value!" ;;
  Ret this.

(** ** Structural comparison *)

(** [if (x != y) return x < y ? -1 : 1;] continues with [0]. *)
Definition cmp3 (x y : Z) : Z :=
  if negb (x =? y) then (if x <? y then -1 else 1) else 0.

(** [if (int res = r) return res;] followed by [k]. *)
Definition orElse (r k : Z) : Z := if negb (r =? 0) then r else k.

(** [ConstantExpr::compareContents] *)
Definition ConstantExpr_compareContents (value cb : APInt) : Z :=
  if negb (APInt_getBitWidth value =? APInt_getBitWidth cb)
  then (if APInt_getBitWidth value <? APInt_getBitWidth cb then -1 else 1)
  else if APInt_eq value cb then 0
  else if APInt_ult value cb then -1 else 1.

(** [ExtractExpr::compareContents] *)
Definition ExtractExpr_compareContents (offset width eb_offset eb_width : Z) : Z :=
  if negb (offset =? eb_offset) then (if offset <? eb_offset then -1 else 1)
  else if negb (width =? eb_width) then (if width <? eb_width then -1 else 1)
  else 0.

(** [CastExpr::compareContents] *)
Definition CastExpr_compareContents (width eb_width : Z) : Z :=
  if negb (width =? eb_width) then (if width <? eb_width then -1 else 1) else 0.

(** [NotExpr::compareContents]; [c] is the value of [expr.compare(eb.expr)],
    on which the reference operators [!=] and [<] are defined. *)
Definition NotExpr_compareContents (c : Z) : Z :=
  if negb (c =? 0) then (if c <? 0 then -1 else 1) else 0.

(** Modelled from the spec: [Expr::compare], [UpdateList::compare] and
    [UpdateNode::compare] are declared in the header and defined outside
    it.  Following the specification, [compare] orders first by kind, then
    by width, then by the contents comparison of the class
    ([compareContents], from the header; for a read, the comparison of the
    update lists), then lexicographically over the children; two update
    lists are compared by walking both chains from their heads, comparing
    the (index, value) pairs pairwise (a chain that ends first is the
    smaller), and then by the identity of the root arrays.  The memo table
    of already-equal pairs that the specification asks for changes the
    running time only and is not represented. *)
Fixpoint compare (a b : Expr) {struct a} : Z :=
  orElse (cmp3 (Expr.kindValue (getKind a)) (Expr.kindValue (getKind b)))
 (orElse (cmp3 (getWidth a) (getWidth b))
    match a, b with
    | ConstantExpr va, ConstantExpr vb => ConstantExpr_compareContents va vb
    | NotOptimizedExpr sa, NotOptimizedExpr sb => compare sa sb
    | ReadExpr ua ia, ReadExpr ub ib =>
        orElse (UpdateList_compare ua ub) (compare ia ib)
    | SelectExpr ca ta fa, SelectExpr cb tb fb =>
        orElse (compare ca cb) (orElse (compare ta tb) (compare fa fb))
    | ConcatExpr _ la ra, ConcatExpr _ lb rb =>
        orElse (compare la lb) (compare ra rb)
    | ExtractExpr ea oa wa, ExtractExpr eb ob wb =>
        orElse (ExtractExpr_compareContents oa wa ob wb) (compare ea eb)
    | NotExpr ea, NotExpr eb =>
        orElse (NotExpr_compareContents (compare ea eb)) (compare ea eb)
    | CastExpr _ sa wa, CastExpr _ sb wb =>
        orElse (CastExpr_compareContents wa wb) (compare sa sb)
    | BinaryExpr _ la ra, BinaryExpr _ lb rb =>
        orElse (compare la lb) (compare ra rb)
    | CmpExpr _ la ra, CmpExpr _ lb rb =>
        orElse (compare la lb) (compare ra rb)
    | _, _ => 0
    end)
with UpdateList_compare (a b : UpdateList) {struct a} : Z :=
  match a, b with
  | mkUpdateList ra ha, mkUpdateList rb hb =>
      orElse (UpdateNode_compare ha hb) (cmp3 ra rb)
  end
with UpdateNode_compare (an bn : UpdateNodeRef) {struct an} : Z :=
  match an, bn with
  | NullNode, NullNode => 0
  | NullNode, UpdateNode _ _ _ _ => -1
  | UpdateNode _ _ _ _, NullNode => 1
  | UpdateNode na ia va _, UpdateNode nb ib vb _ =>
      orElse (compare ia ib) (orElse (compare va vb) (UpdateNode_compare na nb))
  end.

(** The virtual [compareContents(b)], dispatched on the class of [this];
    [b] has the same kind (the cast of the header is only valid then).
    The overrides of [ConstantExpr], [ExtractExpr], [NotExpr] and
    [CastExpr] and the default are in the header; that of [ReadExpr] is
    defined outside it and compares the update lists. *)
Definition compareContents (a b : Expr) : Z :=
  match a, b with
  | ConstantExpr va, ConstantExpr vb => ConstantExpr_compareContents va vb
  | ReadExpr ua _, ReadExpr ub _ => UpdateList_compare ua ub
  | ExtractExpr _ oa wa, ExtractExpr _ ob wb =>
      ExtractExpr_compareContents oa wa ob wb
  | NotExpr ea, NotExpr eb => NotExpr_compareContents (compare ea eb)
  | CastExpr _ _ wa, CastExpr _ _ wb => CastExpr_compareContents wa wb
  | _, _ => 0
  end.

(** Modelled from the spec: the contents and the children of two nodes of
    one class, compared in this order, which is what [compare] does once
    the kinds and the widths are found equal. *)
Definition compareBody (a b : Expr) : Z :=
  match a, b with
  | ConstantExpr va, ConstantExpr vb => ConstantExpr_compareContents va vb
  | NotOptimizedExpr sa, NotOptimizedExpr sb => compare sa sb
  | ReadExpr ua ia, ReadExpr ub ib =>
      orElse (UpdateList_compare ua ub) (compare ia ib)
  | SelectExpr ca ta fa, SelectExpr cb tb fb =>
      orElse (compare ca cb) (orElse (compare ta tb) (compare fa fb))
  | ConcatExpr _ la ra, ConcatExpr _ lb rb =>
      orElse (compare la lb) (compare ra rb)
  | ExtractExpr ea oa wa, ExtractExpr eb ob wb =>
      orElse (ExtractExpr_compareContents oa wa ob wb) (compare ea eb)
  | NotExpr ea, NotExpr eb =>
      orElse (NotExpr_compareContents (compare ea eb)) (compare ea eb)
  | CastExpr _ sa wa, CastExpr _ sb wb =>
      orElse (CastExpr_compareContents wa wb) (compare sa sb)
  | BinaryExpr _ la ra, BinaryExpr _ lb rb =>
      orElse (compare la lb) (compare ra rb)
  | CmpExpr _ la ra, CmpExpr _ lb rb =>
      orElse (compare la lb) (compare ra rb)
  | _, _ => 0
  end.

(** Modelled from the spec: the lexicographic comparison of the children,
    in which the first non-zero comparison decides. *)
Fixpoint compareKids (ka kb : list Expr) : Z :=
  match ka, kb with
  | x :: ka', y :: kb' => orElse (compare x y) (compareKids ka' kb')
  | _, _ => 0
  end.

(** [operator==] on expressions. *)
Definition Expr_eq (a b : Expr) : bool := compare a b =? 0.

(** Modelled from the spec: [computeHash] is defined outside the header.
    The hash combines the kind, the width, the contents of the class and
    the hash of every child with the mixing constant
    [MAGIC_HASH_CONSTANT]; [hash()] returns the value cached by [alloc]. *)
Definition mix (acc x : Z) : Z := wrap32 (acc * Expr.MAGIC_HASH_CONSTANT + x).

Fixpoint hash (e : Expr) : Z :=
  let h0 := mix (mix 0 (Expr.kindValue (getKind e))) (getWidth e) in
  match e with
  | ConstantExpr v => mix h0 (VAL v)
  | NotOptimizedExpr s => mix h0 (hash s)
  | ReadExpr u i => mix (mix h0 (UpdateList_hash u)) (hash i)
  | SelectExpr c t f => mix (mix (mix h0 (hash c)) (hash t)) (hash f)
  | ConcatExpr _ l r => mix (mix h0 (hash l)) (hash r)
  | ExtractExpr x o w => mix (mix (mix h0 o) w) (hash x)
  | NotExpr x => mix h0 (hash x)
  | CastExpr _ s w => mix (mix h0 w) (hash s)
  | BinaryExpr _ l r => mix (mix h0 (hash l)) (hash r)
  | CmpExpr _ l r => mix (mix h0 (hash l)) (hash r)
  end
with UpdateList_hash (u : UpdateList) : Z :=
  match u with
  | mkUpdateList r h => mix (wrap32 r) (UpdateNode_hash h)
  end
with UpdateNode_hash (n : UpdateNodeRef) : Z :=
  match n with
  | NullNode => 0
  | UpdateNode nx i v _ => mix (mix (UpdateNode_hash nx) (hash i)) (hash v)
  end.

(** *** Nodes as the constructors leave them

    A constant holds a value below [2 ^ width] (every [APInt] constructor
    truncates), a concatenation holds the width its constructor computed,
    and an update node holds the length of its chain. *)
Definition UpdateNode_getSize (n : UpdateNodeRef) : Z :=
  match n with NullNode => 0 | UpdateNode _ _ _ size => size end.

Fixpoint constructed (e : Expr) : bool :=
  match e with
  | ConstantExpr v => APInt_wf v
  | NotOptimizedExpr s => constructed s
  | ReadExpr u i => UpdateList_constructed u && constructed i
  | SelectExpr c t f => constructed c && constructed t && constructed f
  | ConcatExpr w l r =>
      (w =? wrap32 (getWidth l + getWidth r)) && constructed l && constructed r
  | ExtractExpr x _ _ => constructed x
  | NotExpr x => constructed x
  | CastExpr _ s _ => constructed s
  | BinaryExpr _ l r => constructed l && constructed r
  | CmpExpr _ l r => constructed l && constructed r
  end
with UpdateList_constructed (u : UpdateList) : bool :=
  match u with mkUpdateList _ h => UpdateNode_constructed h end
with UpdateNode_constructed (n : UpdateNodeRef) : bool :=
  match n with
  | NullNode => true
  | UpdateNode nx i v size =>
      (size =? wrap32 (1 + UpdateNode_getSize nx))
      && constructed i && constructed v && UpdateNode_constructed nx
  end.

(** ** [rebuild]

    [create] is declared by every non-terminal class and defined outside
    the header; [rebuild] is written against the declarations, so the
    [create] functions are parameters here. *)
Record Creators : Type := mkCreators {
  NotOptimizedExpr_create : Expr -> Outcome Expr;
  ReadExpr_create : UpdateList -> Expr -> Outcome Expr;
  SelectExpr_create : Expr -> Expr -> Expr -> Outcome Expr;
  ConcatExpr_create : Expr -> Expr -> Outcome Expr;
  ExtractExpr_create : Expr -> Z -> Width -> Outcome Expr;
  NotExpr_create : Expr -> Outcome Expr;
  CastExpr_create : CAST_EXPR_CLASS -> Expr -> Width -> Outcome Expr;
  BinaryExpr_create : ARITHMETIC_EXPR_CLASS -> Expr -> Expr -> Outcome Expr;
  CmpExpr_create : COMPARISON_EXPR_CLASS -> Expr -> Expr -> Outcome Expr
}.

(** [kids[i]] on the array handed to [rebuild]; reading past its end has no
    defined result. *)
Definition kidAt (kids : list Expr) (i : nat) : Outcome Expr :=
  match nth_error kids i with Some k => Ret k | None => Undefined end.

Section Rebuild.
Variable C : Creators.

Definition rebuild (this : Expr) (kids : list Expr) : Outcome Expr :=
  match this with
  | ConstantExpr _ =>
      assert_ false "rebuild() on ConstantExpr" ;;
      Ret this
  | NotOptimizedExpr _ =>
      k0 ← kidAt kids 0; NotOptimizedExpr_create C k0
  | ReadExpr updates _ =>
      k0 ← kidAt kids 0; ReadExpr_create C updates k0
  | SelectExpr _ _ _ =>
      k0 ← kidAt kids 0; k1 ← kidAt kids 1; k2 ← kidAt kids 2;
      SelectExpr_create C k0 k1 k2
  | ConcatExpr _ _ _ =>
      k0 ← kidAt kids 0; k1 ← kidAt kids 1; ConcatExpr_create C k0 k1
  | ExtractExpr _ offset width =>
      k0 ← kidAt kids 0; ExtractExpr_create C k0 offset width
  | NotExpr _ =>
      k0 ← kidAt kids 0; NotExpr_create C k0
  | CastExpr cls _ width =>
      k0 ← kidAt kids 0; CastExpr_create C cls k0 width
  | BinaryExpr cls _ _ =>
      k0 ← kidAt kids 0; k1 ← kidAt kids 1; BinaryExpr_create C cls k0 k1
  | CmpExpr cls _ _ =>
      k0 ← kidAt kids 0; k1 ← kidAt kids 1; CmpExpr_create C cls k0 k1
  end.
End Rebuild.

(** ** Constant operations

    The operations of [ConstantExpr] ([Add], [Sub], ..., [Concat],
    [Extract], [ZExt], [SExt], [Neg], [Not] and the comparisons) are
    declared in the header and defined outside it.  The specification
    defines them bit-exactly on the two's-complement pattern: the result
    has the operands' width (width 1 for the comparisons), offset 0 is the
    least significant bit, and division or remainder by the zero constant
    has no defined result. *)

(** The bit pattern read as a two's-complement number. *)
Definition signedValue (a : APInt) : Z :=
  if VAL a <? 2 ^ (BitWidth a - 1) then VAL a else VAL a - 2 ^ BitWidth a.

(** Modelled from the spec: the arithmetic and bitwise operations [Add],
    [Sub], [Mul], [UDiv], [SDiv], [URem], [SRem], [And], [Or], [Xor],
    [Shl], [LShr], [AShr] of [ConstantExpr], one per class of the
    arithmetic macro. *)
Definition ConstantExpr_binop (c : ARITHMETIC_EXPR_CLASS) (a b : APInt)
  : Outcome APInt :=
  let w := BitWidth a in
  match c with
  | AddExpr => Ret (APInt_ctor w (VAL a + VAL b))
  | SubExpr => Ret (APInt_ctor w (VAL a - VAL b))
  | MulExpr => Ret (APInt_ctor w (VAL a * VAL b))
  | UDivExpr =>
      if VAL b =? 0 then Undefined else Ret (APInt_ctor w (VAL a / VAL b))
  | SDivExpr =>
      if VAL b =? 0 then Undefined
      else Ret (APInt_ctor w (Z.quot (signedValue a) (signedValue b)))
  | URemExpr =>
      if VAL b =? 0 then Undefined else Ret (APInt_ctor w (VAL a mod VAL b))
  | SRemExpr =>
      if VAL b =? 0 then Undefined
      else Ret (APInt_ctor w (Z.rem (signedValue a) (signedValue b)))
  | AndExpr => Ret (APInt_ctor w (Z.land (VAL a) (VAL b)))
  | OrExpr => Ret (APInt_ctor w (Z.lor (VAL a) (VAL b)))
  | XorExpr => Ret (APInt_ctor w (Z.lxor (VAL a) (VAL b)))
  | ShlExpr => Ret (APInt_ctor w (Z.shiftl (VAL a) (VAL b)))
  | LShrExpr => Ret (APInt_ctor w (Z.shiftr (VAL a) (VAL b)))
  | AShrExpr => Ret (APInt_ctor w (Z.shiftr (signedValue a) (VAL b)))
  end.

(** The constants [true] and [false], of width [Bool]. *)
Definition boolConstant (b : bool) : APInt :=
  APInt_ctor Expr.Bool (if b then 1 else 0).

(** Modelled from the spec: the comparisons [Eq], [Ne], [Ult], ..., [Sge]
    of [ConstantExpr]; they return a constant of width 1. *)
Definition ConstantExpr_cmpop (c : COMPARISON_EXPR_CLASS) (a b : APInt) : APInt :=
  boolConstant
    match c with
    | EqExpr => VAL a =? VAL b
    | NeExpr => negb (VAL a =? VAL b)
    | UltExpr => VAL a <? VAL b
    | UleExpr => VAL a <=? VAL b
    | UgtExpr => VAL b <? VAL a
    | UgeExpr => VAL b <=? VAL a
    | SltExpr => signedValue a <? signedValue b
    | SleExpr => signedValue a <=? signedValue b
    | SgtExpr => signedValue b <? signedValue a
    | SgeExpr => signedValue b <=? signedValue a
    end.

(** Modelled from the spec: [ConstantExpr::Concat]; the left operand
    becomes the high bits. *)
Definition ConstantExpr_Concat (a b : APInt) : APInt :=
  APInt_ctor (wrap32 (BitWidth a + BitWidth b)) (VAL a * 2 ^ BitWidth b + VAL b).
(** Modelled from the spec: [ConstantExpr::Extract]; offset 0 is the least
    significant bit. *)
Definition ConstantExpr_Extract (a : APInt) (offset : Z) (W : Width) : APInt :=
  APInt_ctor W (VAL a / 2 ^ offset).
(** Modelled from the spec: [ConstantExpr::ZExt]. *)
Definition ConstantExpr_ZExt (a : APInt) (W : Width) : APInt :=
  APInt_ctor W (VAL a).
(** Modelled from the spec: [ConstantExpr::SExt]. *)
Definition ConstantExpr_SExt (a : APInt) (W : Width) : APInt :=
  APInt_ctor W (signedValue a).
(** Modelled from the spec: [ConstantExpr::Neg]. *)
Definition ConstantExpr_Neg (a : APInt) : APInt :=
  APInt_ctor (BitWidth a) (- VAL a).
(** Modelled from the spec: [ConstantExpr::Not]. *)
Definition ConstantExpr_Not (a : APInt) : APInt :=
  APInt_ctor (BitWidth a) (2 ^ BitWidth a - 1 - VAL a).
(** [isTrue()], from the header. *)
Definition ConstantExpr_isTrue (a : APInt) : bool :=
  (ConstantExpr_getWidth a =? Expr.Bool) && negb (VAL a =? 0).

(** ** The canonicalising constructors

    The [create] functions are declared in the header and defined outside
    it.  They are modelled from the canonicalisation
    rules and the failure semantics of the specification:
    - a width mismatch between an operator and its operands, an extract
      that reaches beyond its operand or has no bits, and a cast to fewer
      bits than its operand abort the construction;
    - a construction whose operands are all constants folds to one
      constant with the constant operations above (rule 1);
    - [Ne] is the negation of [Eq], written [Eq(false, .)] as the class
      comment of [Expr] has it, and [Ugt], [Uge], [Sgt], [Sge] are [Ult],
      [Ule], [Slt], [Sle] with the operands swapped (rule 2);
    - a constant operand of [Add], [Mul], [And], [Or], [Xor] is moved to
      the left, and the subtraction of a constant becomes the addition of
      its negation (rule 3);
    - otherwise the node is allocated with [alloc]; rule 4, on the shape of
      operator chains, is not represented.
    A read is allocated as it is given: its value depends on the array, and
    the specification gives no folding rule for it. *)

(** The kinds of rule 3. *)
Definition isCommutative (c : ARITHMETIC_EXPR_CLASS) : bool :=
  match c with
  | AddExpr | MulExpr | AndExpr | OrExpr | XorExpr => true
  | _ => false
  end.

(** Modelled from the spec: [NotOptimizedExpr::create]; by rule 1 the
    wrapper of a constant is the constant. *)
Definition spec_NotOptimizedExpr_create (src : Expr) : Outcome Expr :=
  match src with
  | ConstantExpr _ => Ret src
  | _ => Ret (NotOptimizedExpr_alloc src)
  end.

(** Modelled from the spec: [ReadExpr::create]; the index has the domain
    width of the array. *)
Definition spec_ReadExpr_create (updates : UpdateList) (i : Expr) : Outcome Expr :=
  assert_ (getWidth i =? Expr.Int32) "invalid index width" ;;
  Ret (ReadExpr_alloc updates i).

(** Modelled from the spec: [SelectExpr::create]; the condition is a
    boolean ([isValidKidWidth]) and the two branches have one width. *)
Definition spec_SelectExpr_create (c t f : Expr) : Outcome Expr :=
  assert_ (isValidKidWidth (SelectExpr c t f) 0 (getWidth c)) "type mismatch" ;;
  assert_ (getWidth t =? getWidth f) "type mismatch" ;;
  match c, t, f with
  | ConstantExpr vc, ConstantExpr _, ConstantExpr _ =>
      Ret (if ConstantExpr_isTrue vc then t else f)
  | _, _, _ => Ret (SelectExpr_alloc c t f)
  end.

(** Modelled from the spec: [ConcatExpr::create]. *)
Definition spec_ConcatExpr_create (l r : Expr) : Outcome Expr :=
  match l, r with
  | ConstantExpr a, ConstantExpr b => Ret (ConstantExpr (ConstantExpr_Concat a b))
  | _, _ => Ret (ConcatExpr_alloc l r)
  end.

(** Modelled from the spec: [ExtractExpr::create]. *)
Definition spec_ExtractExpr_create (e : Expr) (bitOff : Z) (w : Width)
  : Outcome Expr :=
  assert_ ((0 <? w) && (wrap32 (bitOff + w) <=? getWidth e)) "invalid extract" ;;
  match e with
  | ConstantExpr a => Ret (ConstantExpr (ConstantExpr_Extract a bitOff w))
  | _ => Ret (ExtractExpr_alloc e bitOff w)
  end.

(** Modelled from the spec: [NotExpr::create]. *)
Definition spec_NotExpr_create (e : Expr) : Outcome Expr :=
  match e with
  | ConstantExpr a => Ret (ConstantExpr (ConstantExpr_Not a))
  | _ => Ret (NotExpr_alloc e)
  end.

(** Modelled from the spec: [ZExtExpr::create] and [SExtExpr::create]. *)
Definition spec_CastExpr_create (cls : CAST_EXPR_CLASS) (e : Expr) (w : Width)
  : Outcome Expr :=
  assert_ (getWidth e <=? w) "invalid cast width" ;;
  match e with
  | ConstantExpr a =>
      Ret (ConstantExpr match cls with
                        | ZExtExpr => ConstantExpr_ZExt a w
                        | SExtExpr => ConstantExpr_SExt a w
                        end)
  | _ => Ret (CastExpr_alloc cls e w)
  end.

(** Modelled from the spec: [create] of the classes of the arithmetic
    macro. *)
Definition spec_BinaryExpr_create (cls : ARITHMETIC_EXPR_CLASS) (l r : Expr)
  : Outcome Expr :=
  assert_ (getWidth l =? getWidth r) "type mismatch" ;;
  match l, r with
  | ConstantExpr a, ConstantExpr b =>
      v ← ConstantExpr_binop cls a b; Ret (ConstantExpr v)
  | _, ConstantExpr b =>
      if isCommutative cls then Ret (BinaryExpr_alloc cls r l)
      else match cls with
           | SubExpr =>
               Ret (BinaryExpr_alloc AddExpr (ConstantExpr (ConstantExpr_Neg b)) l)
           | _ => Ret (BinaryExpr_alloc cls l r)
           end
  | _, _ => Ret (BinaryExpr_alloc cls l r)
  end.

(** Modelled from the spec: [create] of the comparisons that exist in
    canonical form, [Eq], [Ult], [Ule], [Slt], [Sle]. *)
Definition spec_CmpExpr_createBasic (cls : COMPARISON_EXPR_CLASS) (l r : Expr)
  : Outcome Expr :=
  assert_ (getWidth l =? getWidth r) "type mismatch" ;;
  match l, r with
  | ConstantExpr a, ConstantExpr b => Ret (ConstantExpr (ConstantExpr_cmpop cls a b))
  | _, _ => Ret (CmpExpr_alloc cls l r)
  end.

(** Modelled from the spec: [create] of the classes of the comparison
    macro; the five kinds left out of the canonical form are rewritten. *)
Definition spec_CmpExpr_create (cls : COMPARISON_EXPR_CLASS) (l r : Expr)
  : Outcome Expr :=
  match cls with
  | EqExpr | UltExpr | UleExpr | SltExpr | SleExpr =>
      spec_CmpExpr_createBasic cls l r
  | NeExpr =>
      e ← spec_CmpExpr_createBasic EqExpr l r;
      spec_CmpExpr_createBasic EqExpr (ConstantExpr (boolConstant false)) e
  | UgtExpr => spec_CmpExpr_createBasic UltExpr r l
  | UgeExpr => spec_CmpExpr_createBasic UleExpr r l
  | SgtExpr => spec_CmpExpr_createBasic SltExpr r l
  | SgeExpr => spec_CmpExpr_createBasic SleExpr r l
  end.

(** Modelled from the spec: the [create] functions above, as the
    parameters of [rebuild]. *)
Definition specCreators : Creators := {|
  NotOptimizedExpr_create := spec_NotOptimizedExpr_create;
  ReadExpr_create := spec_ReadExpr_create;
  SelectExpr_create := spec_SelectExpr_create;
  ConcatExpr_create := spec_ConcatExpr_create;
  ExtractExpr_create := spec_ExtractExpr_create;
  NotExpr_create := spec_NotExpr_create;
  CastExpr_create := spec_CastExpr_create;
  BinaryExpr_create := spec_BinaryExpr_create;
  CmpExpr_create := spec_CmpExpr_create
|}.

(** *** Expressions built through [create]

    The leaves are constants; every other expression is the result of a
    [create] call on expressions built before. *)
Inductive Built : Expr -> Prop :=
| Built_Constant v : Built (ConstantExpr_alloc v)
| Built_NotOptimized s e :
    Built s -> spec_NotOptimizedExpr_create s = Ret e -> Built e
| Built_Read u i e :
    Built i -> spec_ReadExpr_create u i = Ret e -> Built e
| Built_Select c t f e :
    Built c -> Built t -> Built f -> spec_SelectExpr_create c t f = Ret e -> Built e
| Built_Concat l r e :
    Built l -> Built r -> spec_ConcatExpr_create l r = Ret e -> Built e
| Built_Extract x o w e :
    Built x -> spec_ExtractExpr_create x o w = Ret e -> Built e
| Built_Not x e :
    Built x -> spec_NotExpr_create x = Ret e -> Built e
| Built_Cast cls s w e :
    Built s -> spec_CastExpr_create cls s w = Ret e -> Built e
| Built_Binary cls l r e :
    Built l -> Built r -> spec_BinaryExpr_create cls l r = Ret e -> Built e
| Built_Cmp cls l r e :
    Built l -> Built r -> spec_CmpExpr_create cls l r = Ret e -> Built e.

(** *** The two canonical-form properties, as checks on a DAG *)

Definition isConstant (e : Expr) : bool := ConstantExpr_classof e.
Definition allKidsConstant (e : Expr) : bool := forallb isConstant (kids e).

(** Every node below [e] that is neither a constant nor a read has a child
    that is not a constant. *)
Fixpoint noAllConstantNode (e : Expr) : bool :=
  match e with
  | ConstantExpr _ => true
  | NotOptimizedExpr s => negb (isConstant s) && noAllConstantNode s
  | ReadExpr _ i => noAllConstantNode i
  | SelectExpr c t f =>
      negb (isConstant c && isConstant t && isConstant f)
      && noAllConstantNode c && noAllConstantNode t && noAllConstantNode f
  | ConcatExpr _ l r =>
      negb (isConstant l && isConstant r)
      && noAllConstantNode l && noAllConstantNode r
  | ExtractExpr x _ _ => negb (isConstant x) && noAllConstantNode x
  | NotExpr x => negb (isConstant x) && noAllConstantNode x
  | CastExpr _ s _ => negb (isConstant s) && noAllConstantNode s
  | BinaryExpr _ l r =>
      negb (isConstant l && isConstant r)
      && noAllConstantNode l && noAllConstantNode r
  | CmpExpr _ l r =>
      negb (isConstant l && isConstant r)
      && noAllConstantNode l && noAllConstantNode r
  end.

Definition isCanonicalCmp (c : COMPARISON_EXPR_CLASS) : bool :=
  match c with
  | NeExpr | UgtExpr | UgeExpr | SgtExpr | SgeExpr => false
  | _ => true
  end.

(** The kinds that the [Kind] enumeration marks as not used in canonical
    form. *)
Definition notUsedInCanonicalForm (k : Expr.Kind) : bool :=
  match k with
  | Expr.Ne | Expr.Ugt | Expr.Uge | Expr.Sgt | Expr.Sge => true
  | _ => false
  end.

(** No node below [e] has kind [Ne], [Ugt], [Uge], [Sgt] or [Sge]. *)
Fixpoint noNonCanonicalCmp (e : Expr) : bool :=
  match e with
  | ConstantExpr _ => true
  | NotOptimizedExpr s => noNonCanonicalCmp s
  | ReadExpr _ i => noNonCanonicalCmp i
  | SelectExpr c t f =>
      noNonCanonicalCmp c && noNonCanonicalCmp t && noNonCanonicalCmp f
  | ConcatExpr _ l r => noNonCanonicalCmp l && noNonCanonicalCmp r
  | ExtractExpr x _ _ => noNonCanonicalCmp x
  | NotExpr x => noNonCanonicalCmp x
  | CastExpr _ s _ => noNonCanonicalCmp s
  | BinaryExpr _ l r => noNonCanonicalCmp l && noNonCanonicalCmp r
  | CmpExpr c l r => isCanonicalCmp c && noNonCanonicalCmp l && noNonCanonicalCmp r
  end.

(** The nodes reachable from [e] through [getKid], [e] included. *)
Fixpoint reachable (e : Expr) : list Expr :=
  e :: match e with
       | ConstantExpr _ => []
       | NotOptimizedExpr s => reachable s
       | ReadExpr _ i => reachable i
       | SelectExpr c t f => reachable c ++ reachable t ++ reachable f
       | ConcatExpr _ l r => reachable l ++ reachable r
       | ExtractExpr x _ _ => reachable x
       | NotExpr x => reachable x
       | CastExpr _ s _ => reachable s
       | BinaryExpr _ l r => reachable l ++ reachable r
       | CmpExpr _ l r => reachable l ++ reachable r
       end.

(** ** Update nodes in memory

    [UpdateList::extend] allocates a node and changes the list object it is
    called on, and several lists may point into one chain of nodes.  To
    state what [extend] leaves alone, the nodes are placed in a store: the
    list of the nodes allocated so far, in allocation order, a node's
    address being its position.  The reference count (a [mutable]
    bookkeeping member that counts the holders of a node) and the cached
    hash are not part of what a node publishes and are left out. *)
Module Store.

(** [const UpdateNode *]: null or the address of a node. *)
Definition NodePtr : Type := option nat.

Record UpdateNode : Type := mkUpdateNode {
  next : NodePtr;
  index : Expr;
  value : Expr;
  size : Z
}.

Abbreviation Heap := (list UpdateNode).

Record UpdateList : Type := mkUpdateList {
  root : ArrayPtr;
  head : NodePtr
}.

(** [getSize()] of a node and of a list. *)
Definition UpdateNode_getSize (n : UpdateNode) : Z := size n.
Definition getSize (h : Heap) (ul : UpdateList) : Outcome Z :=
  match head ul with
  | None => Ret 0
  | Some p =>
      match h !! p with
      | Some n => Ret (UpdateNode_getSize n)
      | None => Undefined
      end
  end.

(** Modelled from the spec: the constructor of [UpdateNode] is declared
    in the header and defined outside it.  An entry records its index,
    its value and the link to the previous entry, and its length is the
    length of the previous entry plus one; the value written is a byte.
    Following a pointer that is not the address of a node has no defined
    result. *)
Definition UpdateNode_ctor (h : Heap) (_next : NodePtr) (_index _value : Expr)
  : Outcome UpdateNode :=
  assert_ (getWidth _value =? Expr.Int8) "Update value should be 8-bit wide." ;;
  match _next with
  | None =>
      Ret {| next := None; index := _index; value := _value; size := 1 |}
  | Some p =>
      match h !! p with
      | Some n =>
          Ret {| next := Some p; index := _index; value := _value;
                 size := wrap32 (1 + size n) |}
      | None => Undefined
      end
  end.

(** [new]: the node is placed at the first unused address. *)
Definition new (h : Heap) (n : UpdateNode) : Heap * nat := (h ++ [n], length h).

(** Modelled from the spec: [UpdateList::extend] is declared in the
    header and defined outside it.  It publishes a new head node that
    points at the previous head and makes it the head of the list it is
    called on; no other node is written.  The result is the store and
    the list object after the call. *)
Definition extend (h : Heap) (this : UpdateList) (_index _value : Expr)
  : Outcome (Heap * UpdateList) :=
  n ← UpdateNode_ctor h (head this) _index _value;
  let '(h', p) := new h n in
  Ret (h', {| root := root this; head := Some p |}).

(** Modelled from the spec: reading an index against an update list
    walks the write history from the most recent write and yields the
    value of the first write to that index ([operator==] on the index
    expressions); [None] stands for the contents of the root array, when
    no write to the index is recorded.  [fuel] bounds the number of nodes
    visited. *)
Fixpoint readFrom (fuel : nat) (h : Heap) (p : NodePtr) (i : Expr)
  : Outcome (option Expr) :=
  match p with
  | None => Ret None
  | Some q =>
      match fuel with
      | O => Undefined
      | S fuel' =>
          match h !! q with
          | None => Undefined
          | Some n =>
              if Expr_eq (index n) i then Ret (Some (value n))
              else readFrom fuel' h (next n) i
          end
      end
  end.

(** Modelled from the spec: the read of an index against an update list.
    A walk visits every node at most once, so the number of nodes in the
    store is fuel enough. *)
Definition read (h : Heap) (ul : UpdateList) (i : Expr) : Outcome (option Expr) :=
  readFrom (length h) h (head ul) i.

(** The stores that [new] produces: a node's link points to a node
    allocated before it. *)
Definition linked (h : Heap) : Prop :=
  ∀ p n q, h !! p = Some n → next n = Some q → (q < p)%nat.

(** The list points into the store. *)
Definition valid (h : Heap) (ul : UpdateList) : Prop :=
  ∀ p, head ul = Some p → (p < length h)%nat.

End Store.

(** ** Further members of the header *)

(** [Expr::getMinBytesForWidth]: unsigned arithmetic on the width. *)
Definition getMinBytesForWidth (w : Width) : Z := wrap32 (w + 7) / 8.

(** [struct Expr::CreateArg]: an expression (a reference, possibly null) or
    a width.  The first constructor takes a width (default [Bool]) and
    leaves the expression null; the second takes an expression and sets the
    width to [InvalidWidth]. *)
Record CreateArg : Type := mkCreateArg {
  CreateArg_expr : option Expr;
  CreateArg_width : Width
}.

Definition CreateArg_ofWidth (w : Width) : CreateArg :=
  {| CreateArg_expr := None; CreateArg_width := w |}.
Definition CreateArg_default : CreateArg := CreateArg_ofWidth Expr.Bool.
Definition CreateArg_ofExpr (e : option Expr) : CreateArg :=
  {| CreateArg_expr := e; CreateArg_width := Expr.InvalidWidth |}.
Definition CreateArg_isWidth (a : CreateArg) : bool :=
  negb (CreateArg_width a =? Expr.InvalidWidth).
Definition CreateArg_isExpr (a : CreateArg) : bool := negb (CreateArg_isWidth a).

(** The comparison operators on expressions.  They are written against the
    declaration of [Expr::compare], whose body is outside the header, so
    [compare] is a parameter here. *)
Section Operators.
Variable compare_ : Expr -> Expr -> Z.

Definition operator_eq (lhs rhs : Expr) : bool := compare_ lhs rhs =? 0.
Definition operator_lt (lhs rhs : Expr) : bool := compare_ lhs rhs <? 0.
Definition operator_ne (lhs rhs : Expr) : bool := negb (operator_eq lhs rhs).
Definition operator_gt (lhs rhs : Expr) : bool := operator_lt rhs lhs.
Definition operator_le (lhs rhs : Expr) : bool := negb (operator_gt lhs rhs).
Definition operator_ge (lhs rhs : Expr) : bool := negb (operator_lt lhs rhs).
End Operators.

(** Further members of [llvm::APInt], after its documented interface:
    [isMinValue] (the smallest unsigned value), [getBoolValue] (the value
    is not zero), [isAllOnesValue], and [getLimitedValue(Limit)] (the value
    if it fits in 64 bits and does not exceed [Limit], else [Limit]). *)
Definition APInt_isMinValue (a : APInt) : bool := VAL a =? 0.
Definition APInt_getBoolValue (a : APInt) : bool := negb (VAL a =? 0).
Definition APInt_isAllOnesValue (a : APInt) : bool := VAL a =? 2 ^ BitWidth a - 1.
Definition APInt_getLimitedValue (a : APInt) (Limit : Z) : Z :=
  if (2 ^ 64 <=? VAL a) || (Limit <? VAL a) then Limit else VAL a.

(** The utility functions of [ConstantExpr]; [isTrue] is above. *)
Definition ConstantExpr_getLimitedValue (value : APInt) (Limit : Z) : Z :=
  APInt_getLimitedValue value Limit.
(** The default argument, [Limit = ~0ULL]. *)
Definition ConstantExpr_getLimitedValue_default (value : APInt) : Z :=
  ConstantExpr_getLimitedValue value (2 ^ 64 - 1).
Definition ConstantExpr_isZero (value : APInt) : bool := APInt_isMinValue value.
Definition ConstantExpr_isOne (value : APInt) : bool :=
  ConstantExpr_getLimitedValue_default value =? 1.
Definition ConstantExpr_isFalse (value : APInt) : bool :=
  (ConstantExpr_getWidth value =? Expr.Bool) && negb (APInt_getBoolValue value).
Definition ConstantExpr_isAllOnes (value : APInt) : bool :=
  APInt_isAllOnesValue value.

(** [Expr::isZero], [Expr::isTrue] and [Expr::isFalse], the inline
    implementations at the end of the header: [dyn_cast<ConstantExpr>]
    succeeds on the nodes of kind [Constant]. *)
Definition Expr_isZero (this : Expr) : bool :=
  match this with
  | ConstantExpr value => ConstantExpr_isZero value
  | _ => false
  end.

Definition Expr_isTrue (this : Expr) : Outcome bool :=
  assert_ (getWidth this =? Expr.Bool) "Invalid isTrue() call!" ;;
  match this with
  | ConstantExpr value => Ret (ConstantExpr_isTrue value)
  | _ => Ret false
  end.

Definition Expr_isFalse (this : Expr) : Outcome bool :=
  assert_ (getWidth this =? Expr.Bool) "Invalid isFalse() call!" ;;
  match this with
  | ConstantExpr value => Ret (ConstantExpr_isFalse value)
  | _ => Ret false
  end.

(** The [alloc] functions in the place of the [create] functions: the
    constructors that allocate what they are given. *)
Definition allocCreators : Creators := {|
  NotOptimizedExpr_create := fun s => Ret (NotOptimizedExpr_alloc s);
  ReadExpr_create := fun u i => Ret (ReadExpr_alloc u i);
  SelectExpr_create := fun c t f => Ret (SelectExpr_alloc c t f);
  ConcatExpr_create := fun l r => Ret (ConcatExpr_alloc l r);
  ExtractExpr_create := fun e o w => Ret (ExtractExpr_alloc e o w);
  NotExpr_create := fun e => Ret (NotExpr_alloc e);
  CastExpr_create := fun cls e w => Ret (CastExpr_alloc cls e w);
  BinaryExpr_create := fun cls l r => Ret (BinaryExpr_alloc cls l r);
  CmpExpr_create := fun cls l r => Ret (CmpExpr_alloc cls l r)
|}.

(** ** [lib/Core/ParametricTree.h]: [class ParaConfig]

    The five-argument constructor clears the two flags; the copy
    constructor is written out member by member. *)
Record ParaConfig : Type := mkParaConfig {
  ParaConfig_sym_bid : Z;
  ParaConfig_sym_tid : Z;
  ParaConfig_cond : option Expr;
  ParaConfig_start : Z;
  ParaConfig_end : Z;
  ParaConfig_syncEncounter : bool;
  ParaConfig_postDomEncounter : bool
}.

Definition ParaConfig_ctor (_sym_bid _sym_tid : Z) (_cond : option Expr)
    (_start _end : Z) : ParaConfig :=
  {| ParaConfig_sym_bid := _sym_bid;
     ParaConfig_sym_tid := _sym_tid;
     ParaConfig_cond := _cond;
     ParaConfig_start := _start;
     ParaConfig_end := _end;
     ParaConfig_syncEncounter := false;
     ParaConfig_postDomEncounter := false |}.

Definition ParaConfig_copy (config : ParaConfig) : ParaConfig :=
  {| ParaConfig_sym_bid := ParaConfig_sym_bid config;
     ParaConfig_sym_tid := ParaConfig_sym_tid config;
     ParaConfig_cond := ParaConfig_cond config;
     ParaConfig_start := ParaConfig_start config;
     ParaConfig_end := ParaConfig_end config;
     ParaConfig_syncEncounter := ParaConfig_syncEncounter config;
     ParaConfig_postDomEncounter := ParaConfig_postDomEncounter config |}.

(** ** Sample expressions

    A symbolic byte (a read of a symbolic array at a constant index), two
    32-bit constants, and a 32-bit symbolic word. *)
Definition sampleUpdates : UpdateList := mkUpdateList 4096 NullNode.
Definition sampleByte : Expr :=
  ReadExpr_alloc sampleUpdates (ConstantExpr_alloc64 0 Expr.Int32).
Definition sampleWord : Expr := CastExpr_alloc ZExtExpr sampleByte Expr.Int32.
Definition one32 : Expr := ConstantExpr_alloc64 1 Expr.Int32.
Definition two32 : Expr := ConstantExpr_alloc64 2 Expr.Int32.

(** A store with one published write, [array[5] := 0x2a], the list that
    ends in it, and two further indices and bytes. *)
Definition index5 : Expr := ConstantExpr_alloc64 5 Expr.Int32.
Definition index6 : Expr := ConstantExpr_alloc64 6 Expr.Int32.
Definition index7 : Expr := ConstantExpr_alloc64 7 Expr.Int32.
Definition byte2a : Expr := ConstantExpr_alloc64 42 Expr.Int8.
Definition byte07 : Expr := ConstantExpr_alloc64 7 Expr.Int8.
Definition sampleStore : Store.Heap :=
  [ {| Store.next := None; Store.index := index5; Store.value := byte2a;
       Store.size := 1 |} ].
Definition sampleList : Store.UpdateList :=
  {| Store.root := 4096; Store.head := Some 0%nat |}.

(** * Properties *)

(** ** Calls that may abort *)

Lemma assert_bind_Ret {A : Type} (c : bool) (msg : string) (k : Outcome A) (a : A) :
  (assert_ c msg ;; k) = Ret a -> c = true /\ k = Ret a.
Proof. destruct c; [auto | discriminate]. Qed.

Lemma bind_Ret_inv {A B : Type} (m : Outcome A) (k : A -> Outcome B) (b : B) :
  (m ≫= k) = Ret b -> exists a, m = Ret a /\ k a = Ret b.
Proof. destruct m; try discriminate. intros H. eauto. Qed.

(** ** Accessors *)

Lemma getNumKids_kids (e : Expr) : getNumKids e = Z.of_nat (length (kids e)).
Proof. destruct e; reflexivity. Qed.

(** Inside the range, [getKid] is the list of children. *)
Lemma getKid_kids (e : Expr) (i : nat) :
  (i < length (kids e))%nat -> getKid e (Z.of_nat i) = nth_error (kids e) i.
Proof.
  destruct e; simpl; intros Hi;
    destruct i as [|[|[|i]]]; simpl in Hi; try lia; reflexivity.
Qed.

(** The classes whose [getKid] tests its argument answer null outside the
    range. *)
Lemma getKid_out_of_range_null (e : Expr) (i : Z) :
  match e with
  | ExtractExpr _ _ _ | NotExpr _ | NotOptimizedExpr _ => False
  | _ => True
  end ->
  ~ (0 <= i < getNumKids e) -> getKid e i = None.
Proof.
  destruct e; simpl; intros Hc Hi; try contradiction; try reflexivity;
    repeat match goal with
           | |- context [?x =? ?y] => destruct (Z.eqb_spec x y); [lia|]
           end; reflexivity.
Qed.

(** C2, at the inputs where the code departs from the claim: [getKid] of an
    [ExtractExpr], a [NotExpr] or a [NotOptimizedExpr] ignores its index and
    returns the child for every index; so for the index 1, outside the
    range [0, 1), it returns the child and not the null reference. *)
Theorem getKid_unary_ignores_index :
  (forall e o w i, getKid (ExtractExpr_alloc e o w) i = Some e)
  /\ (forall e i, getKid (NotExpr_alloc e) i = Some e)
  /\ (forall e i, getKid (NotOptimizedExpr_alloc e) i = Some e)
  /\ getNumKids (ExtractExpr_alloc sampleWord 0 8) = 1
  /\ getKid (ExtractExpr_alloc sampleWord 0 8) 1 = Some sampleWord
  /\ getNumKids (NotExpr_alloc sampleWord) = 1
  /\ getKid (NotExpr_alloc sampleWord) 1 = Some sampleWord
  /\ getNumKids (NotOptimizedExpr_alloc sampleWord) = 1
  /\ getKid (NotOptimizedExpr_alloc sampleWord) 1 = Some sampleWord.
Proof. repeat split; reflexivity. Qed.

(** ** Widths *)

Lemma CmpExpr_classof_inv (e : Expr) :
  CmpExpr_classof e = true -> exists cls l r, e = CmpExpr cls l r.
Proof.
  destruct e as [ | | | | | | |c ? ?|c ? ?|c l r]; unfold CmpExpr_classof; simpl;
    try discriminate; try (destruct c; discriminate).
  intros _. eauto.
Qed.

Lemma CastExpr_classof_inv (e : Expr) :
  CastExpr_classof e = true -> exists cls s w, e = CastExpr cls s w.
Proof.
  destruct e as [ | | | | | | |c s w|c ? ?|c ? ?]; unfold CastExpr_classof; simpl;
    try discriminate; try (destruct c; discriminate).
  intros _. eauto.
Qed.

(** C7: a node whose kind lies in [Eq, Sge] has width [Bool], whatever its
    operands are; a cast node (kind in [ZExt, SExt]) has the width given to
    its constructor, answers [true] to [needsResultType], and [rebuild]
    passes the stored width to [create]. *)
Theorem cmp_width_Bool_cast_width_target (e : Expr) :
  (CmpExpr_classof e = true -> getWidth e = Expr.Bool)
  /\ (CastExpr_classof e = true ->
      needsResultType e = true
      /\ exists cls s w,
           e = CastExpr_alloc cls s w
           /\ getWidth e = w
           /\ forall (C : Creators) (k0 : Expr) (rest : list Expr),
                rebuild C e (k0 :: rest) = CastExpr_create C cls k0 w).
Proof.
  split.
  - intros H. apply CmpExpr_classof_inv in H as (cls & l & r & ->). reflexivity.
  - intros H. apply CastExpr_classof_inv in H as (cls & s & w & ->).
    split; [reflexivity|].
    exists cls, s, w. repeat split.
Qed.

Lemma cmp_width_Bool_cast_width_target_witness :
  getWidth (CmpExpr_alloc UltExpr sampleWord one32) = Expr.Bool
  /\ needsResultType (CastExpr_alloc SExtExpr sampleByte 64) = true.
Proof.
  split.
  - apply (proj1 (cmp_width_Bool_cast_width_target
                    (CmpExpr_alloc UltExpr sampleWord one32))).
    reflexivity.
  - apply (proj2 (cmp_width_Bool_cast_width_target
                    (CastExpr_alloc SExtExpr sampleByte 64))).
    reflexivity.
Defined.

(** C9: the constructor of [ConcatExpr], which [alloc] runs and which is the
    only way to build a concatenation, stores the sum of the children's
    widths, computed in [unsigned] arithmetic; [getWidth] returns the stored
    value, the children are kept as given, and no condition is put on
    their widths. *)
Theorem ConcatExpr_width_is_sum (l r : Expr) :
  getWidth (ConcatExpr_alloc l r) = wrap32 (getWidth l + getWidth r)
  /\ (0 <= getWidth l + getWidth r < 2 ^ 32 ->
      getWidth (ConcatExpr_alloc l r) = getWidth l + getWidth r)
  /\ kids (ConcatExpr_alloc l r) = [l; r]
  /\ (forall w, getWidth (ConcatExpr w l r) = w).
Proof.
  repeat split.
  intros H. simpl. unfold wrap32. apply Z.mod_small. exact H.
Qed.

Lemma ConcatExpr_width_is_sum_witness :
  getWidth (ConcatExpr_alloc sampleByte sampleWord) = 40.
Proof.
  rewrite (proj1 (proj2 (ConcatExpr_width_is_sum sampleByte sampleWord))).
  - reflexivity.
  - vm_compute. split; [discriminate | reflexivity].
Defined.

(** ** [rebuild] on a terminal *)

(** C6: [rebuild] on a [ConstantExpr] stops at its assertion, for every
    array of new children and whatever the [create] functions are; it
    returns no expression. *)
Theorem rebuild_ConstantExpr_is_fatal (C : Creators) (v : APInt) (kids : list Expr) :
  rebuild C (ConstantExpr v) kids = AssertionFailed "rebuild() on ConstantExpr"
  /\ returns (rebuild C (ConstantExpr v) kids) = false.
Proof. split; reflexivity. Qed.

(** ** Arrays *)

Lemma Array_ctor_returns (name : string) (_size : Z) (values : list APInt) :
  values = [] \/ Z.of_nat (length values) = wrap32 _size ->
  forallb (fun it => ConstantExpr_getWidth it =? Expr.Int8) values = true ->
  Array_ctor name _size values =
    Ret {| Array_name := name; Array_size := wrap32 _size;
           Array_constantValues := values |}.
Proof.
  intros Hsize Hw. unfold Array_ctor, getRange. rewrite Hw.
  unfold isSymbolicArray. simpl Array_constantValues. simpl Array_size.
  destruct Hsize as [-> | Hlen]; [reflexivity|].
  rewrite Hlen, Z.eqb_refl, orb_true_r. reflexivity.
Qed.

(** C8: an array that its constructor returns and that has constant values
    has as many of them as its element count [size]; a construction with
    constant values whose number differs from the element count stops at
    the constructor's assertion; and [getDomain] is 32 and [getRange] is 8
    for every array. *)
Theorem Array_constant_count_matches_size (name : string) (_size : Z)
    (values : list APInt) :
  (forall a, Array_ctor name _size values = Ret a ->
     (isConstantArray a = true ->
      Z.of_nat (length (Array_constantValues a)) = Array_size a)
     /\ Array_constantValues a = values
     /\ Array_size a = wrap32 _size)
  /\ (values <> [] -> Z.of_nat (length values) <> wrap32 _size ->
      Array_ctor name _size values
      = AssertionFailed "Invalid size for constant array!")
  /\ (forall a : Array, getDomain a = 32 /\ getRange a = 8).
Proof.
  split; [|split].
  - intros a H. unfold Array_ctor in H.
    apply assert_bind_Ret in H as [H1 H].
    apply assert_bind_Ret in H as [_ H].
    injection H as <-. cbn [Array_constantValues Array_size].
    repeat split.
    unfold isConstantArray, isSymbolicArray in *.
    cbn [Array_constantValues Array_size] in *.
    destruct values; [discriminate|]. intros _.
    apply Z.eqb_eq. exact H1.
  - intros Hne Hlen. unfold Array_ctor, isSymbolicArray.
    cbn [Array_constantValues Array_size].
    destruct values as [|v vs]; [contradiction|].
    apply Z.eqb_neq in Hlen. rewrite Hlen. reflexivity.
  - intros a. split; reflexivity.
Qed.

Lemma Array_constant_count_matches_size_witness :
  exists a, Array_ctor "const_arr" 2 [APInt_ctor 8 7; APInt_ctor 8 9] = Ret a
            /\ Z.of_nat (length (Array_constantValues a)) = Array_size a.
Proof.
  eexists. split.
  - apply Array_ctor_returns; [right|]; reflexivity.
  - apply (proj1 (Array_constant_count_matches_size
                    "const_arr" 2 [APInt_ctor 8 7; APInt_ctor 8 9])).
    + apply Array_ctor_returns; [right|]; reflexivity.
    + reflexivity.
Defined.

(** ** [getZExtValue] *)

Lemma APInt_wf_range (v : APInt) : APInt_wf v = true -> 0 <= VAL v < 2 ^ BitWidth v.
Proof. unfold APInt_wf. intros H. apply andb_true_iff in H as [H1 H2]. lia. Qed.

(** C10, as the code has it: when the constant is no wider than [bits] and
    its value fits in 64 bits, which is always so when [bits] is at most 64
    (the default), [getZExtValue] returns the value; a constant wider than
    [bits] stops at the assertion of [getZExtValue]; a value that needs more
    than 64 bits stops at the assertion of [APInt::getZExtValue] and is not
    truncated. *)
Theorem getZExtValue_checked (v : APInt) (bits : Z) :
  APInt_wf v = true ->
  (ConstantExpr_getWidth v <= bits -> VAL v < 2 ^ 64 ->
   ConstantExpr_getZExtValue v bits = Ret (VAL v))
  /\ (ConstantExpr_getWidth v <= bits -> bits <= 64 ->
      ConstantExpr_getZExtValue v bits = Ret (VAL v))
  /\ (bits < ConstantExpr_getWidth v ->
      ConstantExpr_getZExtValue v bits
      = AssertionFailed "Value may be out of range!")
  /\ (ConstantExpr_getWidth v <= bits -> 2 ^ 64 <= VAL v ->
      ConstantExpr_getZExtValue v bits
      = AssertionFailed "Too many bits for uint64_t")
  /\ ConstantExpr_getZExtValue_default v = ConstantExpr_getZExtValue v 64.
Proof.
  intros Hwf. apply APInt_wf_range in Hwf.
  unfold ConstantExpr_getZExtValue, ConstantExpr_getWidth, APInt_getBitWidth,
    APInt_getZExtValue.
  repeat split.
  - intros Hw Hv. destruct (Z.leb_spec (BitWidth v) bits); [simpl|lia].
    destruct (Z.leb_spec (BitWidth v) 64); [reflexivity|].
    destruct (Z.ltb_spec (VAL v) (2 ^ 64)); [simpl|lia].
    unfold wrap64. rewrite Z.mod_small by lia. reflexivity.
  - intros Hw Hb. destruct (Z.leb_spec (BitWidth v) bits); [simpl|lia].
    destruct (Z.leb_spec (BitWidth v) 64); [reflexivity|lia].
  - intros Hw. destruct (Z.leb_spec (BitWidth v) bits); [lia|reflexivity].
  - intros Hw Hv. destruct (Z.leb_spec (BitWidth v) bits); [simpl|lia].
    destruct (Z.leb_spec (BitWidth v) 64) as [Hle|Hgt].
    + assert (2 ^ BitWidth v <= 2 ^ 64) by (apply Z.pow_le_mono_r; lia). lia.
    + destruct (Z.ltb_spec (VAL v) (2 ^ 64)); [lia|reflexivity].
Qed.

Lemma getZExtValue_checked_witness :
  ConstantExpr_getZExtValue (APInt_ctor 8 200) 8 = Ret 200.
Proof.
  apply (proj1 (getZExtValue_checked (APInt_ctor 8 200) 8 eq_refl));
    vm_compute; [discriminate | reflexivity].
Defined.

(** C10 as stated fails for a constant of 65 bits that holds [2 ^ 64], read
    with [bits = 65]: the constant is no wider than [bits], and the call
    does not return its value. *)
Lemma getZExtValue_wide_value_not_returned :
  let v := APInt_ctor 65 (2 ^ 64) in
  APInt_wf v = true
  /\ ConstantExpr_getWidth v <= 65
  /\ ConstantExpr_getZExtValue v 65 = AssertionFailed "Too many bits for uint64_t"
  /\ ConstantExpr_getZExtValue v 65 <> Ret (VAL v).
Proof.
  repeat split; try reflexivity; vm_compute; discriminate.
Qed.

(** ** Canonical form of the expressions built through [create] *)

Lemma isConstant_inv (e : Expr) : isConstant e = true -> exists v, e = ConstantExpr v.
Proof. destruct e; try discriminate. eauto. Qed.

(** What [create] can allocate: a property that holds of the constants and
    is kept by every node that has a child that is not a constant and is
    not one of the five comparisons left out of the canonical form, holds
    of every expression built through [create]. *)
Section BuiltInvariant.
Variable P : Expr -> Prop.
Hypothesis P_Constant : forall v, P (ConstantExpr v).
Hypothesis P_NotOptimized :
  forall s, P s -> isConstant s = false -> P (NotOptimizedExpr s).
Hypothesis P_Read : forall u i, P i -> P (ReadExpr u i).
Hypothesis P_Select :
  forall c t f, P c -> P t -> P f ->
    isConstant c && isConstant t && isConstant f = false -> P (SelectExpr c t f).
Hypothesis P_Concat :
  forall w l r, P l -> P r -> isConstant l && isConstant r = false ->
    P (ConcatExpr w l r).
Hypothesis P_Extract :
  forall x o w, P x -> isConstant x = false -> P (ExtractExpr x o w).
Hypothesis P_Not : forall x, P x -> isConstant x = false -> P (NotExpr x).
Hypothesis P_Cast :
  forall cls s w, P s -> isConstant s = false -> P (CastExpr cls s w).
Hypothesis P_Binary :
  forall cls l r, P l -> P r -> isConstant l && isConstant r = false ->
    P (BinaryExpr cls l r).
Hypothesis P_Cmp :
  forall cls l r, P l -> P r -> isConstant l && isConstant r = false ->
    isCanonicalCmp cls = true -> P (CmpExpr cls l r).

Ltac finish H :=
  simpl in H;
  first [ injection H as <- | idtac ];
  first [ apply P_Constant
        | apply P_NotOptimized; [assumption | reflexivity]
        | apply P_Extract; [assumption | reflexivity]
        | apply P_Not; [assumption | reflexivity]
        | apply P_Cast; [assumption | reflexivity]
        | apply P_Select; [assumption .. | reflexivity]
        | apply P_Concat; [assumption .. | reflexivity]
        | apply P_Binary; [first [assumption | apply P_Constant] .. | reflexivity]
        | apply P_Cmp; [first [assumption | apply P_Constant] .. | reflexivity | reflexivity]
        | assumption ].

Lemma NotOptimized_create_keeps s e :
  P s -> spec_NotOptimizedExpr_create s = Ret e -> P e.
Proof. intros Hs H. unfold spec_NotOptimizedExpr_create in H. destruct s; finish H. Qed.

Lemma Read_create_keeps u i e : P i -> spec_ReadExpr_create u i = Ret e -> P e.
Proof.
  intros Hi H. unfold spec_ReadExpr_create in H.
  apply assert_bind_Ret in H as [_ H]. injection H as <-. apply P_Read, Hi.
Qed.

Lemma Select_create_keeps c t f e :
  P c -> P t -> P f -> spec_SelectExpr_create c t f = Ret e -> P e.
Proof.
  intros Hc Ht Hf H. unfold spec_SelectExpr_create in H.
  apply assert_bind_Ret in H as [_ H]. apply assert_bind_Ret in H as [_ H].
  destruct c as [vc| | | | | | | | | ]; try solve [finish H].
  destruct t; try solve [finish H].
  destruct f; try solve [finish H].
  destruct (ConstantExpr_isTrue vc); finish H.
Qed.

Lemma Concat_create_keeps l r e :
  P l -> P r -> spec_ConcatExpr_create l r = Ret e -> P e.
Proof.
  intros Hl Hr H. unfold spec_ConcatExpr_create, ConcatExpr_alloc, ConcatExpr_ctor in H.
  destruct l; try solve [finish H]. destruct r; finish H.
Qed.

Lemma Extract_create_keeps x o w e :
  P x -> spec_ExtractExpr_create x o w = Ret e -> P e.
Proof.
  intros Hx H. unfold spec_ExtractExpr_create in H.
  apply assert_bind_Ret in H as [_ H]. destruct x; finish H.
Qed.

Lemma Not_create_keeps x e : P x -> spec_NotExpr_create x = Ret e -> P e.
Proof. intros Hx H. unfold spec_NotExpr_create in H. destruct x; finish H. Qed.

Lemma Cast_create_keeps cls s w e :
  P s -> spec_CastExpr_create cls s w = Ret e -> P e.
Proof.
  intros Hs H. unfold spec_CastExpr_create in H.
  apply assert_bind_Ret in H as [_ H]. destruct s; finish H.
Qed.

Lemma Binary_create_keeps cls l r e :
  P l -> P r -> spec_BinaryExpr_create cls l r = Ret e -> P e.
Proof.
  intros Hl Hr H. unfold spec_BinaryExpr_create in H.
  apply assert_bind_Ret in H as [_ H].
  destruct r as [b| | | | | | | | | ].
  - destruct l as [a| | | | | | | | | ].
    + apply bind_Ret_inv in H as (v & _ & H). finish H.
    + destruct (isCommutative cls); [finish H | destruct cls; finish H].
    + destruct (isCommutative cls); [finish H | destruct cls; finish H].
    + destruct (isCommutative cls); [finish H | destruct cls; finish H].
    + destruct (isCommutative cls); [finish H | destruct cls; finish H].
    + destruct (isCommutative cls); [finish H | destruct cls; finish H].
    + destruct (isCommutative cls); [finish H | destruct cls; finish H].
    + destruct (isCommutative cls); [finish H | destruct cls; finish H].
    + destruct (isCommutative cls); [finish H | destruct cls; finish H].
    + destruct (isCommutative cls); [finish H | destruct cls; finish H].
  - destruct l; finish H.
  - destruct l; finish H.
  - destruct l; finish H.
  - destruct l; finish H.
  - destruct l; finish H.
  - destruct l; finish H.
  - destruct l; finish H.
  - destruct l; finish H.
  - destruct l; finish H.
Qed.

Lemma CmpBasic_create_keeps cls l r e :
  isCanonicalCmp cls = true ->
  P l -> P r -> spec_CmpExpr_createBasic cls l r = Ret e -> P e.
Proof.
  intros Hcls Hl Hr H. unfold spec_CmpExpr_createBasic in H.
  apply assert_bind_Ret in H as [_ H].
  destruct l; destruct r; simpl in H; injection H as <-;
    first [ apply P_Constant
          | apply P_Cmp; [assumption | assumption | reflexivity | assumption] ].
Qed.

Lemma Cmp_create_keeps cls l r e :
  P l -> P r -> spec_CmpExpr_create cls l r = Ret e -> P e.
Proof.
  intros Hl Hr H. unfold spec_CmpExpr_create in H.
  destruct cls;
    try solve [eapply CmpBasic_create_keeps; [| | | exact H];
               first [reflexivity | assumption]].
  apply bind_Ret_inv in H as (e1 & H1 & H).
  eapply CmpBasic_create_keeps; [| | | exact H];
    [reflexivity | apply P_Constant |].
  eapply CmpBasic_create_keeps; [| | | exact H1];
    first [reflexivity | assumption].
Qed.

Lemma Built_invariant (e : Expr) : Built e -> P e.
Proof.
  induction 1.
  - apply P_Constant.
  - eapply NotOptimized_create_keeps; eassumption.
  - eapply Read_create_keeps; eassumption.
  - eapply Select_create_keeps; [| | | eassumption]; assumption.
  - eapply Concat_create_keeps; [| | eassumption]; assumption.
  - eapply Extract_create_keeps; eassumption.
  - eapply Not_create_keeps; eassumption.
  - eapply Cast_create_keeps; eassumption.
  - eapply Binary_create_keeps; [| | eassumption]; assumption.
  - eapply Cmp_create_keeps; [| | eassumption]; assumption.
Qed.
End BuiltInvariant.

Lemma noAllConstantNode_reachable (e : Expr) :
  noAllConstantNode e = true ->
  forall n, In n (reachable e) -> isConstant n = false ->
            getKind n <> Expr.Read -> allKidsConstant n = false.
Proof.
  unfold allKidsConstant.
  induction e; simpl; intros H n Hin Hn Hk;
    repeat match goal with
           | H : _ && _ = true |- _ => apply andb_true_iff in H as [? ?]
           | H : negb _ = true |- _ => apply negb_true_iff in H
           end;
    destruct Hin as [<- | Hin];
    try discriminate; try (exfalso; apply Hk; reflexivity);
    try contradiction;
    repeat match goal with
           | H : In _ (_ ++ _) |- _ => apply in_app_or in H as [H | H]
           end;
    try solve [simpl; rewrite ?andb_true_r; assumption];
    try solve [simpl; rewrite ?andb_true_r, andb_assoc; assumption];
    eauto.
Qed.

Lemma noNonCanonicalCmp_reachable (e : Expr) :
  noNonCanonicalCmp e = true ->
  forall n, In n (reachable e) -> notUsedInCanonicalForm (getKind n) = false.
Proof.
  induction e; simpl; intros H n Hin;
    repeat match goal with
           | H : _ && _ = true |- _ => apply andb_true_iff in H as [? ?]
           end;
    destruct Hin as [<- | Hin];
    try reflexivity; try contradiction;
    repeat match goal with
           | H : In _ (_ ++ _) |- _ => apply in_app_or in H as [H | H]
           end;
    eauto;
    match goal with c : _ |- _ => destruct c; solve [reflexivity | discriminate] end.
Qed.

(** A node whose children are all constants sits at the bottom of every
    expression that is not itself a constant: reads of a constant index are
    the symbolic leaves, which is why the property below leaves reads
    out. *)
Lemma bottom_node_has_constant_kids (e : Expr) :
  isConstant e = false ->
  exists n, In n (reachable e) /\ isConstant n = false /\ allKidsConstant n = true.
Proof.
  unfold allKidsConstant.
  induction e; simpl reachable; simpl kids; intros He; try discriminate;
    repeat match goal with
           | IH : isConstant ?k = false -> _ |- _ =>
               destruct (isConstant k) eqn:?;
               [ clear IH
               | destruct (IH eq_refl) as (n & Hn & Hc & Hk);
                 exists n; split; [right; rewrite ?in_app_iff; auto | auto] ]
           end;
    try (eexists; split; [left; reflexivity|]; split; [reflexivity|]; simpl;
         repeat match goal with H : isConstant _ = true |- _ => rewrite H; clear H end;
         reflexivity).
Qed.

(** C1, for the constructions through [create]: in an expression built
    through [create], every reachable node that is neither a constant nor a
    read has a child that is not a constant, and a [create] whose operands
    are all constants returns, when it returns, a constant. *)
Theorem create_folds_constant_operands :
  (forall e n, Built e -> In n (reachable e) ->
     NonConstantExpr_classof n = true -> getKind n <> Expr.Read ->
     allKidsConstant n = false)
  /\ (forall s e, isConstant s = true ->
        spec_NotOptimizedExpr_create s = Ret e -> isConstant e = true)
  /\ (forall c t f e,
        isConstant c = true -> isConstant t = true -> isConstant f = true ->
        spec_SelectExpr_create c t f = Ret e -> isConstant e = true)
  /\ (forall l r e, isConstant l = true -> isConstant r = true ->
        spec_ConcatExpr_create l r = Ret e -> isConstant e = true)
  /\ (forall x o w e, isConstant x = true ->
        spec_ExtractExpr_create x o w = Ret e -> isConstant e = true)
  /\ (forall x e, isConstant x = true ->
        spec_NotExpr_create x = Ret e -> isConstant e = true)
  /\ (forall cls s w e, isConstant s = true ->
        spec_CastExpr_create cls s w = Ret e -> isConstant e = true)
  /\ (forall cls l r e, isConstant l = true -> isConstant r = true ->
        spec_BinaryExpr_create cls l r = Ret e -> isConstant e = true)
  /\ (forall cls l r e, isConstant l = true -> isConstant r = true ->
        spec_CmpExpr_create cls l r = Ret e -> isConstant e = true).
Proof.
  split.
  { intros e n Hb Hin Hn Hk.
    apply (noAllConstantNode_reachable e); auto.
    - apply (Built_invariant (fun x => noAllConstantNode x = true)); auto;
        simpl; intros;
        repeat match goal with
               | H : noAllConstantNode _ = true |- _ => rewrite H; clear H
               | H : _ = false |- _ => rewrite H; clear H
               end; reflexivity.
    - apply negb_true_iff in Hn. exact Hn. }
  repeat split; intros;
    repeat match goal with
           | H : isConstant _ = true |- _ =>
               apply isConstant_inv in H as [? ->]
           end.
  - injection H0 as <-. reflexivity.
  - unfold spec_SelectExpr_create in H2.
    apply assert_bind_Ret in H2 as [_ H2]. apply assert_bind_Ret in H2 as [_ H2].
    injection H2 as <-. destruct (ConstantExpr_isTrue _); reflexivity.
  - injection H1 as <-. reflexivity.
  - unfold spec_ExtractExpr_create in H0.
    apply assert_bind_Ret in H0 as [_ H0]. injection H0 as <-. reflexivity.
  - injection H0 as <-. reflexivity.
  - unfold spec_CastExpr_create in H0.
    apply assert_bind_Ret in H0 as [_ H0]. injection H0 as <-. reflexivity.
  - unfold spec_BinaryExpr_create in H1.
    apply assert_bind_Ret in H1 as [_ H1].
    apply bind_Ret_inv in H1 as (v & _ & H1). injection H1 as <-. reflexivity.
  - assert (Hb : forall c a b e0,
               spec_CmpExpr_createBasic c (ConstantExpr a) (ConstantExpr b) = Ret e0 ->
               exists v, e0 = ConstantExpr v).
    { intros c a b e0 Hc. unfold spec_CmpExpr_createBasic in Hc.
      apply assert_bind_Ret in Hc as [_ Hc]. injection Hc as <-. eauto. }
    unfold spec_CmpExpr_create in H1.
    destruct cls; try (apply Hb in H1 as [v ->]; reflexivity).
    apply bind_Ret_inv in H1 as (e1 & H1 & H2).
    apply Hb in H1 as [v ->]. apply Hb in H2 as [v' ->]. reflexivity.
Qed.

Lemma Built_sampleByte : Built sampleByte.
Proof.
  apply (Built_Read sampleUpdates (ConstantExpr_alloc64 0 Expr.Int32)).
  - apply Built_Constant.
  - reflexivity.
Defined.

Lemma Built_sampleWord : Built sampleWord.
Proof.
  apply (Built_Cast ZExtExpr sampleByte Expr.Int32).
  - apply Built_sampleByte.
  - reflexivity.
Defined.

Lemma Built_sampleSum : Built (BinaryExpr AddExpr one32 sampleWord).
Proof.
  apply (Built_Binary AddExpr sampleWord one32).
  - apply Built_sampleWord.
  - apply Built_Constant.
  - reflexivity.
Defined.

Lemma create_folds_constant_operands_witness :
  allKidsConstant (BinaryExpr AddExpr one32 sampleWord) = false
  /\ isConstant (ConstantExpr (APInt_ctor 32 3)) = true.
Proof.
  split.
  - apply (proj1 create_folds_constant_operands
             (BinaryExpr AddExpr one32 sampleWord) (BinaryExpr AddExpr one32 sampleWord)).
    + apply Built_sampleSum.
    + left. reflexivity.
    + reflexivity.
    + discriminate.
  - apply (proj1 (proj2 (proj2 (proj2 (proj2 (proj2 (proj2 (proj2
             create_folds_constant_operands)))))))
             AddExpr one32 two32); reflexivity.
Defined.

(** C1 as stated fails on [alloc]: the sum allocated from two constants is
    a node of kind [Add], not a constant, and both its children are
    constants; so is the only child of a read at a constant index. *)
Lemma alloc_keeps_all_constant_operands :
  getKind (BinaryExpr_alloc AddExpr one32 two32) = Expr.Add
  /\ NonConstantExpr_classof (BinaryExpr_alloc AddExpr one32 two32) = true
  /\ kids (BinaryExpr_alloc AddExpr one32 two32) = [one32; two32]
  /\ allKidsConstant (BinaryExpr_alloc AddExpr one32 two32) = true
  /\ NonConstantExpr_classof sampleByte = true
  /\ allKidsConstant sampleByte = true.
Proof. repeat split; reflexivity. Qed.

(** C5, for the constructions through [create]: no node of an expression
    built through [create] has kind [Ne], [Ugt], [Uge], [Sgt] or [Sge];
    [create] of [Ne] is the equality with [false] of the [Eq] of its
    operands, and [create] of [Ugt], [Uge], [Sgt], [Sge] is that of [Ult],
    [Ule], [Slt], [Sle] with the operands swapped. *)
Theorem create_avoids_noncanonical_comparisons :
  (forall e n, Built e -> In n (reachable e) ->
     notUsedInCanonicalForm (getKind n) = false)
  /\ (forall l r,
        spec_CmpExpr_create NeExpr l r
        = (e ← spec_CmpExpr_create EqExpr l r;
           spec_CmpExpr_create EqExpr (ConstantExpr (boolConstant false)) e))
  /\ (forall l r, spec_CmpExpr_create UgtExpr l r = spec_CmpExpr_create UltExpr r l)
  /\ (forall l r, spec_CmpExpr_create UgeExpr l r = spec_CmpExpr_create UleExpr r l)
  /\ (forall l r, spec_CmpExpr_create SgtExpr l r = spec_CmpExpr_create SltExpr r l)
  /\ (forall l r, spec_CmpExpr_create SgeExpr l r = spec_CmpExpr_create SleExpr r l).
Proof.
  split; [|repeat split].
  intros e n Hb Hin.
  apply (noNonCanonicalCmp_reachable e); auto.
  apply (Built_invariant (fun x => noNonCanonicalCmp x = true)); auto;
    simpl; intros;
    repeat match goal with
           | H : noNonCanonicalCmp _ = true |- _ => rewrite H; clear H
           | H : isCanonicalCmp _ = true |- _ => rewrite H; clear H
           end; reflexivity.
Qed.

Lemma Built_sampleNe :
  Built (CmpExpr EqExpr (ConstantExpr (boolConstant false))
                 (CmpExpr EqExpr sampleWord one32)).
Proof.
  apply (Built_Cmp NeExpr sampleWord one32).
  - apply Built_sampleWord.
  - apply Built_Constant.
  - reflexivity.
Defined.

Lemma create_avoids_noncanonical_comparisons_witness :
  notUsedInCanonicalForm
    (getKind (CmpExpr EqExpr (ConstantExpr (boolConstant false))
                      (CmpExpr EqExpr sampleWord one32))) = false.
Proof.
  apply (proj1 create_avoids_noncanonical_comparisons
           (CmpExpr EqExpr (ConstantExpr (boolConstant false))
                    (CmpExpr EqExpr sampleWord one32))).
  - apply Built_sampleNe.
  - left. reflexivity.
Defined.

(** C5 as stated fails on [alloc]: the comparison classes of the five
    kinds have a public [alloc], and the nodes it returns have these
    kinds. *)
Lemma alloc_builds_noncanonical_comparisons :
  getKind (CmpExpr_alloc NeExpr sampleWord one32) = Expr.Ne
  /\ getKind (CmpExpr_alloc UgtExpr sampleWord one32) = Expr.Ugt
  /\ getKind (CmpExpr_alloc UgeExpr sampleWord one32) = Expr.Uge
  /\ getKind (CmpExpr_alloc SgtExpr sampleWord one32) = Expr.Sgt
  /\ getKind (CmpExpr_alloc SgeExpr sampleWord one32) = Expr.Sge
  /\ notUsedInCanonicalForm (getKind (CmpExpr_alloc NeExpr sampleWord one32)) = true.
Proof. repeat split; reflexivity. Qed.

(** ** The order of [compare] *)

Lemma cmp3_spec (x y : Z) :
  (x < y /\ cmp3 x y = -1) \/ (x = y /\ cmp3 x y = 0) \/ (y < x /\ cmp3 x y = 1).
Proof.
  unfold cmp3. destruct (Z.eqb_spec x y); simpl; [lia|].
  destruct (Z.ltb_spec x y); lia.
Qed.

Lemma orElse_spec (r k : Z) :
  (r <> 0 /\ orElse r k = r) \/ (r = 0 /\ orElse r k = k).
Proof. unfold orElse. destruct (Z.eqb_spec r 0); simpl; auto. Qed.

Lemma cmp3_refl (x : Z) : cmp3 x x = 0.
Proof. destruct (cmp3_spec x x) as [[? ?]|[[? ?]|[? ?]]]; lia. Qed.

Lemma cmp3_eq0 (x y : Z) : cmp3 x y = 0 -> x = y.
Proof. destruct (cmp3_spec x y) as [[? ?]|[[? ?]|[? ?]]]; lia. Qed.

Lemma cmp3_opp (x y : Z) : cmp3 y x = - cmp3 x y.
Proof.
  destruct (cmp3_spec x y) as [[? ->]|[[? ->]|[? ->]]];
    destruct (cmp3_spec y x) as [[? ->]|[[? ->]|[? ->]]]; lia.
Qed.

Lemma orElse_0_l (k : Z) : orElse 0 k = k.
Proof. reflexivity. Qed.

Lemma orElse_0_r (r : Z) : orElse r 0 = r.
Proof. destruct (orElse_spec r 0) as [[? ->]|[? ->]]; lia. Qed.

Lemma orElse_eq0 (r k : Z) : orElse r k = 0 -> r = 0 /\ k = 0.
Proof. destruct (orElse_spec r k) as [[? ->]|[? ->]]; lia. Qed.

Lemma orElse_opp (r k : Z) : orElse (- r) (- k) = - orElse r k.
Proof.
  destruct (orElse_spec r k) as [[? ->]|[? ->]];
    destruct (orElse_spec (- r) (- k)) as [[? ->]|[? ->]]; lia.
Qed.

Lemma orElse_sign (r k : Z) :
  (r = -1 \/ r = 0 \/ r = 1) -> (k = -1 \/ k = 0 \/ k = 1) ->
  orElse r k = -1 \/ orElse r k = 0 \/ orElse r k = 1.
Proof. destruct (orElse_spec r k) as [[? ->]|[? ->]]; auto. Qed.

(** The lexicographic step of transitivity: the first components are
    transitive and respect equality, and the second components are
    transitive where the first are equal. *)
Lemma orElse_lt_trans (x1 y1 x2 y2 x3 y3 : Z) :
  (x1 = -1 -> x2 = -1 -> x3 = -1) ->
  (x1 = 0 -> x3 = x2) ->
  (x2 = 0 -> x3 = x1) ->
  (x1 = 0 -> x2 = 0 -> y1 = -1 -> y2 = -1 -> y3 = -1) ->
  orElse x1 y1 = -1 -> orElse x2 y2 = -1 -> orElse x3 y3 = -1.
Proof.
  intros Ht H1 H2 Hy.
  destruct (orElse_spec x1 y1) as [[? ->]|[? ->]];
    destruct (orElse_spec x2 y2) as [[? ->]|[? ->]];
    destruct (orElse_spec x3 y3) as [[? ->]|[? ->]]; intros; lia.
Qed.

Lemma cmp3_lt_trans (x y z : Z) : cmp3 x y = -1 -> cmp3 y z = -1 -> cmp3 x z = -1.
Proof.
  destruct (cmp3_spec x y) as [[? ->]|[[? ->]|[? ->]]];
    destruct (cmp3_spec y z) as [[? ->]|[[? ->]|[? ->]]];
    destruct (cmp3_spec x z) as [[? ->]|[[? ->]|[? ->]]]; lia.
Qed.

(** The contents comparisons of the header. *)
Lemma ConstantExpr_compareContents_spec (a b : APInt) :
  ConstantExpr_compareContents a b
  = orElse (cmp3 (BitWidth a) (BitWidth b)) (cmp3 (VAL a) (VAL b)).
Proof.
  unfold ConstantExpr_compareContents, APInt_getBitWidth, APInt_eq, APInt_ult,
    orElse, cmp3.
  destruct (Z.eqb_spec (BitWidth a) (BitWidth b)); simpl.
  - destruct (Z.eqb_spec (VAL a) (VAL b)); reflexivity.
  - destruct (Z.ltb_spec (BitWidth a) (BitWidth b)); reflexivity.
Qed.

Lemma ExtractExpr_compareContents_spec (o w o' w' : Z) :
  ExtractExpr_compareContents o w o' w' = orElse (cmp3 o o') (cmp3 w w').
Proof.
  unfold ExtractExpr_compareContents, orElse, cmp3.
  destruct (Z.eqb_spec o o'); simpl; [reflexivity|].
  destruct (Z.ltb_spec o o'); reflexivity.
Qed.

Lemma CastExpr_compareContents_spec (w w' : Z) :
  CastExpr_compareContents w w' = cmp3 w w'.
Proof. reflexivity. Qed.

Lemma NotExpr_compareContents_sign (c : Z) :
  (c = -1 \/ c = 0 \/ c = 1) -> NotExpr_compareContents c = c.
Proof. intros [-> | [-> | ->]]; reflexivity. Qed.

Lemma kindValue_inj (k1 k2 : Expr.Kind) :
  Expr.kindValue k1 = Expr.kindValue k2 -> k1 = k2.
Proof. destruct k1, k2; intros H; try reflexivity; discriminate H. Qed.

(** Two nodes of one kind are objects of one class. *)
Lemma same_kind_inv (a b : Expr) :
  Expr.kindValue (getKind a) = Expr.kindValue (getKind b) ->
  match a with
  | ConstantExpr _ => exists v, b = ConstantExpr v
  | NotOptimizedExpr _ => exists s, b = NotOptimizedExpr s
  | ReadExpr _ _ => exists u i, b = ReadExpr u i
  | SelectExpr _ _ _ => exists c t f, b = SelectExpr c t f
  | ConcatExpr _ _ _ => exists w l r, b = ConcatExpr w l r
  | ExtractExpr _ _ _ => exists x o w, b = ExtractExpr x o w
  | NotExpr _ => exists x, b = NotExpr x
  | CastExpr cls _ _ => exists s w, b = CastExpr cls s w
  | BinaryExpr cls _ _ => exists l r, b = BinaryExpr cls l r
  | CmpExpr cls _ _ => exists l r, b = CmpExpr cls l r
  end.
Proof.
  intros H. apply kindValue_inj in H.
  destruct a, b; simpl in H; try discriminate H; eauto;
    repeat match goal with c : CAST_EXPR_CLASS |- _ => destruct c end;
    repeat match goal with c : ARITHMETIC_EXPR_CLASS |- _ => destruct c end;
    repeat match goal with c : COMPARISON_EXPR_CLASS |- _ => destruct c end;
    try discriminate H; eauto.
Qed.

Lemma compare_eqn (a b : Expr) :
  compare a b
  = orElse (cmp3 (Expr.kindValue (getKind a)) (Expr.kindValue (getKind b)))
      (orElse (cmp3 (getWidth a) (getWidth b)) (compareBody a b)).
Proof. destruct a; reflexivity. Qed.

Lemma UpdateList_compare_eqn (ra rb : ArrayPtr) (ha hb : UpdateNodeRef) :
  UpdateList_compare (mkUpdateList ra ha) (mkUpdateList rb hb)
  = orElse (UpdateNode_compare ha hb) (cmp3 ra rb).
Proof. reflexivity. Qed.

Lemma UpdateNode_compare_eqn na ia va sa nb ib vb sb :
  UpdateNode_compare (UpdateNode na ia va sa) (UpdateNode nb ib vb sb)
  = orElse (compare ia ib) (orElse (compare va vb) (UpdateNode_compare na nb)).
Proof. reflexivity. Qed.

Lemma compare_refl_all :
  (forall a, compare a a = 0)
  /\ (forall u, UpdateList_compare u u = 0)
  /\ (forall n, UpdateNode_compare n n = 0).
Proof.
  apply Expr_UpdateList_ind; intros;
    rewrite ?compare_eqn, ?UpdateList_compare_eqn, ?UpdateNode_compare_eqn;
    cbn [compareBody];
    rewrite ?ConstantExpr_compareContents_spec, ?ExtractExpr_compareContents_spec,
      ?CastExpr_compareContents_spec, ?cmp3_refl;
    repeat match goal with H : _ = 0 |- _ => rewrite H; clear H end;
    reflexivity.
Qed.

Lemma compare_sign_all :
  (forall a b, compare a b = -1 \/ compare a b = 0 \/ compare a b = 1)
  /\ (forall u u', UpdateList_compare u u' = -1 \/ UpdateList_compare u u' = 0
                   \/ UpdateList_compare u u' = 1)
  /\ (forall n n', UpdateNode_compare n n' = -1 \/ UpdateNode_compare n n' = 0
                   \/ UpdateNode_compare n n' = 1).
Proof.
  apply Expr_UpdateList_ind; intros;
    match goal with
    | |- context [compare _ ?b] => rewrite compare_eqn; destruct b
    | |- context [UpdateList_compare _ ?b] =>
        destruct b; rewrite UpdateList_compare_eqn
    | |- context [UpdateNode_compare _ ?b] =>
        destruct b; rewrite ?UpdateNode_compare_eqn
    end;
    cbn [compareBody UpdateNode_compare];
    rewrite ?ConstantExpr_compareContents_spec, ?ExtractExpr_compareContents_spec,
      ?CastExpr_compareContents_spec;
    repeat first
      [ apply orElse_sign
      | match goal with
        | |- cmp3 ?x ?y = -1 \/ _ =>
            destruct (cmp3_spec x y) as [[? ->]|[[? ->]|[? ->]]]; lia
        | |- NotExpr_compareContents ?c = -1 \/ _ =>
            rewrite NotExpr_compareContents_sign
        | |- CastExpr_compareContents ?x ?y = -1 \/ _ =>
            change (CastExpr_compareContents x y) with (cmp3 x y)
        end
      | solve [auto] | lia ].
Qed.

Lemma compare_antisym_all :
  (forall a b, compare b a = - compare a b)
  /\ (forall u u', UpdateList_compare u' u = - UpdateList_compare u u')
  /\ (forall n n', UpdateNode_compare n' n = - UpdateNode_compare n n').
Proof.
  assert (Hnot : forall c, NotExpr_compareContents (- c) = - NotExpr_compareContents c).
  { intros c. unfold NotExpr_compareContents.
    destruct (Z.eqb_spec c 0), (Z.eqb_spec (- c) 0); simpl; try lia.
    destruct (Z.ltb_spec c 0), (Z.ltb_spec (- c) 0); lia. }
  apply Expr_UpdateList_ind; intros;
    match goal with
    | |- compare ?b _ = _ => rewrite !compare_eqn; destruct b
    | |- UpdateList_compare ?b _ = _ => destruct b; rewrite !UpdateList_compare_eqn
    | |- UpdateNode_compare ?b _ = _ => destruct b; rewrite ?UpdateNode_compare_eqn
    end;
    cbn [compareBody UpdateNode_compare];
    rewrite ?ConstantExpr_compareContents_spec, ?ExtractExpr_compareContents_spec,
      ?CastExpr_compareContents_spec;
    rewrite <- ?orElse_opp, <- ?Hnot, <- ?cmp3_opp;
    repeat match goal with
           | H : forall b, compare b ?a = - compare ?a b |- _ =>
               rewrite <- !H; clear H
           | H : forall b, UpdateList_compare b ?a = - _ |- _ =>
               rewrite <- !H; clear H
           | H : forall b, UpdateNode_compare b ?a = - _ |- _ =>
               rewrite <- !H; clear H
           end;
    reflexivity.
Qed.

Ltac split_andb :=
  repeat match goal with
         | H : _ && _ = true |- _ => apply andb_true_iff in H as [? ?]
         end.

Ltac split_orElse :=
  repeat match goal with
         | H : orElse _ _ = 0 |- _ => apply orElse_eq0 in H as [? ?]
         | H : cmp3 _ _ = 0 |- _ => apply cmp3_eq0 in H
         | H : CastExpr_compareContents ?x ?y = 0 |- _ =>
             change (cmp3 x y = 0) in H
         | H : ExtractExpr_compareContents _ _ _ _ = 0 |- _ =>
             rewrite ExtractExpr_compareContents_spec in H
         | H : ConstantExpr_compareContents _ _ = 0 |- _ =>
             rewrite ConstantExpr_compareContents_spec in H
         end.

Ltac use_eq_IH :=
  repeat match goal with
         | IH : forall b, constructed ?k = true -> _,
           Hc : compare ?k ?k' = 0 |- _ =>
             apply IH in Hc; [subst k'; clear IH | assumption | assumption]
         | IH : forall b, UpdateList_constructed ?k = true -> _,
           Hc : UpdateList_compare ?k ?k' = 0 |- _ =>
             apply IH in Hc; [subst k'; clear IH | assumption | assumption]
         | IH : forall b, UpdateNode_constructed ?k = true -> _,
           Hc : UpdateNode_compare ?k ?k' = 0 |- _ =>
             apply IH in Hc; [subst k'; clear IH | assumption | assumption]
         end.

(** On nodes as the constructors leave them, [compare] returns 0 only for
    identical structures. *)
Lemma compare_eq_all :
  (forall a b, constructed a = true -> constructed b = true ->
               compare a b = 0 -> a = b)
  /\ (forall u u', UpdateList_constructed u = true ->
                   UpdateList_constructed u' = true ->
                   UpdateList_compare u u' = 0 -> u = u')
  /\ (forall n n', UpdateNode_constructed n = true ->
                   UpdateNode_constructed n' = true ->
                   UpdateNode_compare n n' = 0 -> n = n').
Proof.
  apply Expr_UpdateList_ind.
  1-10: intros;
    match goal with
    | H : compare _ ?b = 0 |- _ =>
        rewrite compare_eqn in H;
        apply orElse_eq0 in H as [Hk H]; apply cmp3_eq0 in Hk;
        apply orElse_eq0 in H as [Hw H]; apply cmp3_eq0 in Hw;
        apply same_kind_inv in Hk; cbn beta iota in Hk;
        repeat match type of Hk with
               | exists _, _ => let x := fresh "x" in destruct Hk as [x Hk]
               end;
        subst b; cbn [compareBody] in H; cbn [getWidth] in Hw
    end;
    cbn [constructed] in *; split_andb; split_orElse; use_eq_IH;
    try reflexivity; try congruence.
  - (* ConstantExpr *)
    destruct value, x; cbn [BitWidth VAL APInt_getBitWidth] in *; subst. reflexivity.
  - (* UpdateList *)
    intros r h IH [r' h'] Hu Hu' H. rewrite UpdateList_compare_eqn in H.
    cbn [UpdateList_constructed] in *. split_orElse. use_eq_IH. congruence.
  - (* NullNode *)
    intros [|? ? ? ?] _ _ H; [reflexivity | discriminate H].
  - (* UpdateNode *)
    intros nx IHn i IHi v IHv s [|nx' i' v' s'] Hn Hn' H; [discriminate H|].
    rewrite UpdateNode_compare_eqn in H.
    cbn [UpdateNode_constructed] in *. split_andb. split_orElse. use_eq_IH.
    repeat match goal with
           | H : (_ =? _) = true |- _ => apply Z.eqb_eq in H
           end.
    congruence.
Qed.

Lemma orElse_assoc (x y z : Z) : orElse (orElse x y) z = orElse x (orElse y z).
Proof.
  destruct (orElse_spec x y) as [[? E1]|[? E1]];
    destruct (orElse_spec x (orElse y z)) as [[? E2]|[? E2]];
    rewrite E2; try lia.
  - destruct (orElse_spec (orElse x y) z) as [[? ->]|[? ->]]; lia.
  - rewrite E1. reflexivity.
Qed.

Lemma NotExpr_body (a b : Expr) :
  orElse (NotExpr_compareContents (compare a b)) (compare a b) = compare a b.
Proof.
  rewrite NotExpr_compareContents_sign by apply compare_sign_all.
  destruct (orElse_spec (compare a b) (compare a b)) as [[? ->]|[? ->]]; reflexivity.
Qed.

(** Closes [x1 = 0 -> x3 = x2] and [x2 = 0 -> x3 = x1] for a component
    that is a [cmp3] or a comparison of constructed operands. *)
Ltac head_eq :=
  let H := fresh "H" in
  intros H;
  first [ apply cmp3_eq0 in H
        | apply (proj1 compare_eq_all) in H; [|assumption|assumption]
        | apply (proj1 (proj2 compare_eq_all)) in H; [|assumption|assumption]
        | apply (proj2 (proj2 compare_eq_all)) in H; [|assumption|assumption] ];
  congruence.

Ltac head_trans :=
  first [ apply cmp3_lt_trans
        | match goal with
          | IH : forall b c, constructed ?k = true -> _
            |- compare ?k _ = -1 -> _ => apply IH; assumption
          | IH : forall b c, UpdateList_constructed ?k = true -> _
            |- UpdateList_compare ?k _ = -1 -> _ => apply IH; assumption
          | IH : forall b c, UpdateNode_constructed ?k = true -> _
            |- UpdateNode_compare ?k _ = -1 -> _ => apply IH; assumption
          end ].

Ltac lex_trans :=
  lazymatch goal with
  | |- orElse _ _ = -1 -> orElse _ _ = -1 -> orElse _ _ = -1 =>
      apply orElse_lt_trans; [head_trans | head_eq | head_eq | intros _ _; lex_trans]
  | |- _ => head_trans
  end.

Lemma compare_lt_trans_all :
  (forall a b c, constructed a = true -> constructed b = true ->
                 constructed c = true ->
                 compare a b = -1 -> compare b c = -1 -> compare a c = -1)
  /\ (forall u u' u'',
        UpdateList_constructed u = true -> UpdateList_constructed u' = true ->
        UpdateList_constructed u'' = true ->
        UpdateList_compare u u' = -1 -> UpdateList_compare u' u'' = -1 ->
        UpdateList_compare u u'' = -1)
  /\ (forall n n' n'',
        UpdateNode_constructed n = true -> UpdateNode_constructed n' = true ->
        UpdateNode_constructed n'' = true ->
        UpdateNode_compare n n' = -1 -> UpdateNode_compare n' n'' = -1 ->
        UpdateNode_compare n n'' = -1).
Proof.
  apply Expr_UpdateList_ind.
  1-10: intros;
    match goal with
    | Hab : compare ?a ?b = -1, Hbc : compare ?b ?c = -1 |- compare ?a ?c = -1 =>
        revert Hab Hbc; rewrite !compare_eqn;
        apply orElse_lt_trans; [apply cmp3_lt_trans | head_eq | head_eq |];
        intros Hk1 Hk2; apply cmp3_eq0 in Hk1, Hk2;
        apply same_kind_inv in Hk1; cbn beta iota in Hk1;
        repeat match type of Hk1 with
               | exists _, _ => let x := fresh "x" in destruct Hk1 as [x Hk1]
               end;
        subst b;
        apply same_kind_inv in Hk2; cbn beta iota in Hk2;
        repeat match type of Hk2 with
               | exists _, _ => let x := fresh "y" in destruct Hk2 as [x Hk2]
               end;
        subst c
    end;
    cbn [compareBody getWidth constructed] in *; split_andb;
    rewrite ?ConstantExpr_compareContents_spec, ?ExtractExpr_compareContents_spec,
      ?NotExpr_body, ?orElse_assoc;
    repeat match goal with
           | |- context [CastExpr_compareContents ?x ?y] =>
               change (CastExpr_compareContents x y) with (cmp3 x y)
           end;
    lex_trans.
  - (* UpdateList *)
    intros r h IH [r' h'] [r'' h''] Hu Hu' Hu''.
    rewrite !UpdateList_compare_eqn. cbn [UpdateList_constructed] in *.
    lex_trans.
  - (* NullNode *)
    intros [|? ? ? ?] [|? ? ? ?] _ _ _ H1 H2;
      solve [discriminate H1 | discriminate H2 | reflexivity].
  - (* UpdateNode *)
    intros nx IHn i IHi v IHv s [|nx' i' v' s'] [|nx'' i'' v'' s''] Hn Hn' Hn'' H1 H2;
      try solve [discriminate H1 | discriminate H2].
    revert H1 H2. rewrite !UpdateNode_compare_eqn.
    cbn [UpdateNode_constructed] in *. split_andb.
    lex_trans.
Qed.

(** [alloc] leaves a node as [constructed] asks, when its operands are. *)
Lemma alloc_constructed :
  (forall v w, 0 <= w -> constructed (ConstantExpr_alloc64 v w) = true)
  /\ (forall l r, constructed (ConcatExpr_alloc l r) = constructed l && constructed r)
  /\ (forall cls l r, constructed (BinaryExpr_alloc cls l r) = constructed l && constructed r)
  /\ (forall cls l r, constructed (CmpExpr_alloc cls l r) = constructed l && constructed r)
  /\ (forall cls s w, constructed (CastExpr_alloc cls s w) = constructed s)
  /\ (forall x o w, constructed (ExtractExpr_alloc x o w) = constructed x)
  /\ (forall c t f, constructed (SelectExpr_alloc c t f)
                    = constructed c && constructed t && constructed f)
  /\ (forall x, constructed (NotExpr_alloc x) = constructed x)
  /\ (forall s, constructed (NotOptimizedExpr_alloc s) = constructed s).
Proof.
  repeat split.
  - intros v w Hw. cbn [constructed ConstantExpr_alloc64 ConstantExpr_alloc].
    unfold APInt_wf, APInt_ctor. cbn [VAL BitWidth].
    pose proof (Z.mod_pos_bound v (2 ^ w) ltac:(apply Z.pow_pos_nonneg; lia)).
    apply andb_true_iff. split; [apply Z.leb_le | apply Z.ltb_lt]; lia.
  - intros l r. cbn [constructed ConcatExpr_alloc ConcatExpr_ctor].
    rewrite Z.eqb_refl. reflexivity.
Qed.

Lemma compareBody_contents_then_kids (a b : Expr) :
  Expr.kindValue (getKind a) = Expr.kindValue (getKind b) ->
  compareBody a b = orElse (compareContents a b) (compareKids (kids a) (kids b)).
Proof.
  intros Hk. apply same_kind_inv in Hk.
  destruct a; cbn beta iota in Hk;
    repeat match type of Hk with
           | exists _, _ => let x := fresh "x" in destruct Hk as [x Hk]
           end;
    subst b; cbn [compareBody compareContents kids compareKids];
    rewrite ?orElse_0_r, ?orElse_0_l; reflexivity.
Qed.

Lemma compare_kind_width_contents_kids (a b : Expr) :
  compare a b
  = orElse (cmp3 (Expr.kindValue (getKind a)) (Expr.kindValue (getKind b)))
      (orElse (cmp3 (getWidth a) (getWidth b))
         (orElse (compareContents a b) (compareKids (kids a) (kids b)))).
Proof.
  rewrite compare_eqn.
  destruct (cmp3_spec (Expr.kindValue (getKind a)) (Expr.kindValue (getKind b)))
    as [[? E]|[[Hk E]|[? E]]]; rewrite E; try reflexivity.
  rewrite (compareBody_contents_then_kids a b Hk). reflexivity.
Qed.

(** C3: [compare] decides by the kind, then by the width, then by the
    contents of the class (the widths and then the values of two constants,
    the offsets and then the widths of two extracts), then by the children
    from left to right; its result is -1, 0 or 1, reversing the arguments
    negates it, and "less than" is transitive; on nodes as the constructors
    leave them it is 0 exactly for identical structures, which have equal
    hashes. *)
Theorem compare_is_total_order (a b c : Expr) :
  constructed a = true -> constructed b = true -> constructed c = true ->
  compare a b
  = orElse (cmp3 (Expr.kindValue (getKind a)) (Expr.kindValue (getKind b)))
      (orElse (cmp3 (getWidth a) (getWidth b))
         (orElse (compareContents a b) (compareKids (kids a) (kids b))))
  /\ (forall va vb,
        compareContents (ConstantExpr va) (ConstantExpr vb)
        = orElse (cmp3 (BitWidth va) (BitWidth vb)) (cmp3 (VAL va) (VAL vb)))
  /\ (forall ea oa wa eb ob wb,
        compareContents (ExtractExpr ea oa wa) (ExtractExpr eb ob wb)
        = orElse (cmp3 oa ob) (cmp3 wa wb))
  /\ (compare a b = -1 \/ compare a b = 0 \/ compare a b = 1)
  /\ compare b a = - compare a b
  /\ (compare a b = -1 -> compare b c = -1 -> compare a c = -1)
  /\ (compare a b = 0 <-> a = b)
  /\ (compare a b = 0 -> hash a = hash b).
Proof.
  intros Ha Hb Hc.
  assert (Heq : compare a b = 0 <-> a = b).
  { split.
    - apply compare_eq_all; assumption.
    - intros <-. apply compare_refl_all. }
  split; [apply compare_kind_width_contents_kids|].
  split; [intros; apply ConstantExpr_compareContents_spec|].
  split; [intros; apply ExtractExpr_compareContents_spec|].
  split; [apply compare_sign_all|].
  split; [apply compare_antisym_all|].
  split; [apply compare_lt_trans_all; assumption|].
  split; [exact Heq|].
  intros H. apply Heq in H. subst b. reflexivity.
Qed.

Lemma compare_is_total_order_witness :
  compare two32 one32 = - compare one32 two32
  /\ (compare one32 two32 = 0 <-> one32 = two32).
Proof.
  pose proof (compare_is_total_order one32 two32 sampleWord
                eq_refl eq_refl eq_refl) as H.
  split.
  - apply H.
  - apply H.
Defined.

(** ** Persistence of update lists *)

Lemma Expr_eq_refl (i : Expr) : Expr_eq i i = true.
Proof. unfold Expr_eq. rewrite (proj1 compare_refl_all). reflexivity. Qed.

Lemma Expr_eq_sym (i j : Expr) : Expr_eq i j = Expr_eq j i.
Proof.
  unfold Expr_eq. rewrite (proj1 compare_antisym_all j i).
  destruct (Z.eqb_spec (compare j i) 0), (Z.eqb_spec (- compare j i) 0);
    reflexivity || lia.
Qed.

Lemma readFrom_step (fuel : nat) (h : Store.Heap) (q : nat) (i : Expr) :
  Store.readFrom (S fuel) h (Some q) i
  = match h !! q with
    | None => Undefined
    | Some n =>
        if Expr_eq (Store.index n) i then Ret (Some (Store.value n))
        else Store.readFrom fuel h (Store.next n) i
    end.
Proof. reflexivity. Qed.

(** A walk from an allocated node of a linked store ends, and its result
    does not depend on the fuel once the fuel exceeds the address. *)
Lemma readFrom_enough_fuel (h : Store.Heap) (i : Expr) :
  Store.linked h ->
  forall p, (p < length h)%nat ->
    exists r, forall fuel, (p < fuel)%nat ->
      Store.readFrom fuel h (Some p) i = Ret r.
Proof.
  intros Hl p. induction p as [p IH] using lt_wf_ind. intros Hp.
  destruct (lookup_lt_is_Some_2 h p Hp) as [n Hn].
  destruct (Expr_eq (Store.index n) i) eqn:He.
  - exists (Some (Store.value n)). intros [|fuel] Hf; [lia|].
    cbn [Store.readFrom]. rewrite Hn, He. reflexivity.
  - destruct (Store.next n) as [q|] eqn:Hq.
    + assert (Hqp : (q < p)%nat) by (eapply Hl; eassumption).
      destruct (IH q Hqp ltac:(lia)) as [r Hr].
      exists r. intros [|fuel] Hf; [lia|].
      cbn [Store.readFrom]. rewrite Hn, He, Hq. apply Hr. lia.
    + exists None. intros [|fuel] Hf; [lia|].
      cbn [Store.readFrom]. rewrite Hn, He, Hq. destruct fuel; reflexivity.
Qed.

(** Nodes allocated later are not visited by a walk from an older node. *)
Lemma readFrom_frame (h ext : Store.Heap) (i : Expr) :
  Store.linked h ->
  forall fuel p, (p < length h)%nat ->
    Store.readFrom fuel (h ++ ext) (Some p) i = Store.readFrom fuel h (Some p) i.
Proof.
  intros Hl. induction fuel as [|fuel IH]; intros p Hp; [reflexivity|].
  cbn [Store.readFrom]. rewrite (lookup_app_l h ext p Hp).
  destruct (h !! p) as [n|] eqn:Hn; [|reflexivity].
  destruct (Expr_eq (Store.index n) i); [reflexivity|].
  destruct (Store.next n) as [q|] eqn:Hq.
  - apply IH. specialize (Hl p n q Hn Hq). lia.
  - destruct fuel; reflexivity.
Qed.

Lemma extend_allocates (h : Store.Heap) (L : Store.UpdateList) (i v : Expr) :
  Store.valid h L -> getWidth v = Expr.Int8 ->
  exists n,
    Store.extend h L i v
    = Ret (h ++ [n], {| Store.root := Store.root L; Store.head := Some (length h) |})
    /\ Store.next n = Store.head L /\ Store.index n = i /\ Store.value n = v.
Proof.
  intros Hv Hw. unfold Store.extend, Store.UpdateNode_ctor.
  rewrite Hw. cbn [assert_ Z.eqb Expr.Int8 Pos.eqb].
  destruct (Store.head L) as [p|] eqn:Hp.
  - destruct (lookup_lt_is_Some_2 h p (Hv p Hp)) as [n0 Hn0].
    cbn. rewrite Hn0. cbn. eexists. split; [reflexivity|]. cbn. auto.
  - cbn. eexists. split; [reflexivity|]. cbn. auto.
Qed.

Lemma linked_new (h : Store.Heap) (n : Store.UpdateNode) :
  Store.linked h ->
  (forall q, Store.next n = Some q -> (q < length h)%nat) ->
  Store.linked (h ++ [n]).
Proof.
  intros Hl Hn p m q Hm Hq.
  destruct (Nat.lt_ge_cases p (length h)) as [Hp|Hp].
  - rewrite lookup_app_l in Hm by exact Hp. eapply Hl; eassumption.
  - pose proof (lookup_lt_Some _ _ _ Hm) as Hlen.
    rewrite length_app in Hlen. simpl in Hlen.
    assert (p = length h) by lia. subst p.
    rewrite list_lookup_middle in Hm by reflexivity.
    injection Hm as <-. apply Hn. exact Hq.
Qed.

(** The stores reached from the empty store by [extend] are linked, and
    the lists made on the way stay valid. *)
Lemma extend_keeps_linked (h h' : Store.Heap) (L L' : Store.UpdateList) (i v : Expr) :
  Store.linked h -> Store.valid h L ->
  Store.extend h L i v = Ret (h', L') ->
  Store.linked h' /\ Store.valid h' L' /\ Store.valid h' L.
Proof.
  intros Hl Hv E.
  assert (Hw : getWidth v = Expr.Int8).
  { unfold Store.extend, Store.UpdateNode_ctor in E.
    destruct (Z.eqb_spec (getWidth v) Expr.Int8); [assumption | discriminate E]. }
  destruct (extend_allocates h L i v Hv Hw) as (n & E' & Hn & _ & _).
  rewrite E' in E. injection E as <- <-.
  split; [|split].
  - apply linked_new; [exact Hl|]. intros q Hq. apply Hv. congruence.
  - intros p Hp. injection Hp as <-. rewrite length_app. simpl. lia.
  - intros p Hp. rewrite length_app. specialize (Hv p Hp). lia.
Qed.

(** C4: from a list [L0], [extend] with [(i, v)] and then, again from [L0],
    with [(j, w)], where [i != j].  Both calls return; every node published
    before either call is still in the store, unchanged, after both; the
    new head of the first list links to the head of [L0]; reading [i]
    against the first list yields [v]; and reading [i] against the second
    list yields what reading [i] against [L0] yielded, the same as if the
    first list had never been made. *)
Theorem extend_publishes_without_mutation
    (h : Store.Heap) (L0 : Store.UpdateList) (i v j w : Expr) :
  Store.linked h -> Store.valid h L0 ->
  getWidth v = Expr.Int8 -> getWidth w = Expr.Int8 ->
  Expr_eq i j = false ->
  exists h1 L1 h2 L2 n1,
    Store.extend h L0 i v = Ret (h1, L1)
    /\ Store.extend h1 L0 j w = Ret (h2, L2)
    /\ (forall p n, h !! p = Some n -> h1 !! p = Some n /\ h2 !! p = Some n)
    /\ (forall p n, h1 !! p = Some n -> h2 !! p = Some n)
    /\ Store.head L1 = Some (length h)
    /\ h2 !! length h = Some n1
    /\ Store.next n1 = Store.head L0
    /\ Store.index n1 = i /\ Store.value n1 = v
    /\ Store.root L1 = Store.root L0
    /\ Store.read h2 L1 i = Ret (Some v)
    /\ Store.read h2 L2 i = Store.read h L0 i
    /\ (exists r, Store.read h L0 i = Ret r)
    /\ (forall h2' L2', Store.extend h L0 j w = Ret (h2', L2') ->
          Store.read h2' L2' i = Store.read h2 L2 i).
Proof.
  intros Hl Hv Hwv Hww Hij.
  destruct (extend_allocates h L0 i v Hv Hwv) as (n1 & E1 & Hn1 & Hi1 & Hv1).
  assert (Hv1' : Store.valid (h ++ [n1]) L0).
  { intros p Hp. rewrite length_app. specialize (Hv p Hp). lia. }
  destruct (extend_allocates (h ++ [n1]) L0 j w Hv1' Hww) as (n2 & E2 & Hn2 & Hi2 & Hv2).
  destruct (extend_allocates h L0 j w Hv Hww) as (n2' & E2' & Hn2' & Hi2' & Hv2').
  assert (Hji : Expr_eq j i = false) by (rewrite Expr_eq_sym; exact Hij).
  (* reading [i] from the head of [L0], in any store that extends [h] *)
  assert (Hold : forall ext fuel, (length h <= fuel)%nat ->
             Store.readFrom fuel (h ++ ext) (Store.head L0) i
             = Store.read h L0 i /\ exists r, Store.read h L0 i = Ret r).
  { intros ext fuel Hf. unfold Store.read.
    destruct (Store.head L0) as [p|] eqn:Hp.
    - specialize (Hv p Hp).
      rewrite readFrom_frame by assumption.
      destruct (readFrom_enough_fuel h i Hl p Hv) as [r Hr].
      rewrite !Hr by lia. eauto.
    - split; [destruct fuel, (length h); reflexivity|].
      exists None. destruct (length h); reflexivity. }
  exists (h ++ [n1]), {| Store.root := Store.root L0; Store.head := Some (length h) |},
    ((h ++ [n1]) ++ [n2]),
    {| Store.root := Store.root L0; Store.head := Some (length (h ++ [n1])) |}, n1.
  split; [exact E1|]. split; [exact E2|].
  split.
  { intros p n Hp. pose proof (lookup_lt_Some _ _ _ Hp) as Hlt.
    split.
    - rewrite lookup_app_l by exact Hlt. exact Hp.
    - rewrite lookup_app_l by (rewrite length_app; lia).
      rewrite lookup_app_l by exact Hlt. exact Hp. }
  split.
  { intros p n Hp. pose proof (lookup_lt_Some _ _ _ Hp) as Hlt.
    rewrite lookup_app_l by exact Hlt. exact Hp. }
  split; [reflexivity|].
  assert (Hat1 : ((h ++ [n1]) ++ [n2]) !! length h = Some n1).
  { rewrite lookup_app_l by (rewrite length_app; simpl; lia).
    apply list_lookup_middle. reflexivity. }
  split; [exact Hat1|]. split; [exact Hn1|].
  split; [exact Hi1|]. split; [exact Hv1|]. split; [reflexivity|].
  split.
  { unfold Store.read. cbn [Store.head].
    rewrite !length_app. cbn [length]. rewrite Nat.add_1_r, readFrom_step.
    rewrite Hat1, Hi1, Expr_eq_refl, Hv1. reflexivity. }
  split.
  { unfold Store.read at 1. cbn [Store.head].
    replace (length ((h ++ [n1]) ++ [n2])) with (S (S (length h)))
      by (rewrite !length_app; simpl; lia).
    rewrite readFrom_step.
    rewrite (list_lookup_middle (h ++ [n1]) [] n2 (length (h ++ [n1])) eq_refl).
    rewrite Hi2, Hji, Hn2, <- app_assoc.
    apply Hold. lia. }
  split; [apply (Hold [] (length h)); lia|].
  intros h2' L2' E. rewrite E2' in E. injection E as <- <-.
  unfold Store.read at 1 2. cbn [Store.head].
  replace (length ((h ++ [n1]) ++ [n2])) with (S (S (length h)))
    by (rewrite !length_app; simpl; lia).
  replace (length (h ++ [n2'])) with (S (length h))
    by (rewrite length_app; simpl; lia).
  rewrite !readFrom_step.
  rewrite (list_lookup_middle (h ++ [n1]) [] n2 (length (h ++ [n1])) eq_refl).
  rewrite (list_lookup_middle h [] n2' (length h) eq_refl).
  rewrite Hi2, Hi2', Hji, Hn2, Hn2', <- app_assoc.
  rewrite (proj1 (Hold _ _ (Nat.le_refl _))).
  rewrite (proj1 (Hold _ (S (length h)) ltac:(lia))). reflexivity.
Qed.

Lemma linked_sampleStore : Store.linked sampleStore.
Proof.
  intros [|p] n q Hn Hq.
  - injection Hn as <-. discriminate Hq.
  - discriminate Hn.
Defined.

Lemma valid_sampleList : Store.valid sampleStore sampleList.
Proof. intros p Hp. injection Hp as <-. simpl. lia. Defined.

Lemma extend_publishes_without_mutation_witness :
  exists h1 L1 h2 L2,
    Store.extend sampleStore sampleList index6 byte07 = Ret (h1, L1)
    /\ Store.extend h1 sampleList index7 byte2a = Ret (h2, L2)
    /\ Store.read h2 L1 index6 = Ret (Some byte07)
    /\ Store.read h2 L2 index6 = Store.read sampleStore sampleList index6.
Proof.
  destruct (extend_publishes_without_mutation
              sampleStore sampleList index6 byte07 index7 byte2a
              linked_sampleStore valid_sampleList eq_refl eq_refl eq_refl)
    as (h1 & L1 & h2 & L2 & n1 & E1 & E2 & _ & _ & _ & _ & _ & _ & _ & _ & R1 & R2 & _).
  exists h1, L1, h2, L2. auto.
Defined.

(** * Further properties of the header *)

(** ** Byte counts *)

(** X1: for a width of at most [2^32 - 8] bits, [getMinBytesForWidth] is the
    least number of bytes that hold the width; for the seven larger widths
    the unsigned addition wraps and the result is 0. *)
Theorem getMinBytesForWidth_least (w : Width) :
  0 <= w < 2 ^ 32 ->
  (w <= 2 ^ 32 - 8 ->
   w <= 8 * getMinBytesForWidth w
   /\ forall n, w <= 8 * n -> getMinBytesForWidth w <= n)
  /\ (2 ^ 32 - 8 < w -> getMinBytesForWidth w = 0).
Proof.
  unfold getMinBytesForWidth, wrap32.
  change (2 ^ 32) with 4294967296. intros Hw. split.
  - intros Hs. rewrite Z.mod_small by lia.
    pose proof (Z.div_mod (w + 7) 8 ltac:(lia)) as Hd.
    pose proof (Z.mod_pos_bound (w + 7) 8 ltac:(lia)) as Hm.
    split; [lia|]. intros n Hn. lia.
  - intros Hl.
    replace ((w + 7) mod 4294967296) with (w + 7 - 4294967296).
    + apply Z.div_small. lia.
    + apply Z.mod_unique with (q := 1); lia.
Qed.

Lemma getMinBytesForWidth_least_witness :
  80 <= 8 * getMinBytesForWidth Expr.Fl80
  /\ getMinBytesForWidth (2 ^ 32 - 1) = 0.
Proof.
  split.
  - apply (proj1 (getMinBytesForWidth_least Expr.Fl80
                    ltac:(vm_compute; split; [discriminate | reflexivity]))).
    vm_compute. discriminate.
  - apply (proj2 (getMinBytesForWidth_least (2 ^ 32 - 1)
                    ltac:(vm_compute; split; [discriminate | reflexivity]))).
    reflexivity.
Defined.

(** ** Arguments of [createFromKind] *)

(** X2: a [CreateArg] is an expression or a width, never both; one built
    from an expression is an expression; one built from a width is a width
    unless the width is [InvalidWidth], in which case it answers [isExpr]
    while its expression is null. *)
Theorem CreateArg_expr_or_width (a : CreateArg) (e : option Expr) (w : Width) :
  CreateArg_isExpr a = negb (CreateArg_isWidth a)
  /\ CreateArg_isExpr (CreateArg_ofExpr e) = true
  /\ CreateArg_expr (CreateArg_ofExpr e) = e
  /\ CreateArg_isWidth (CreateArg_ofWidth w) = negb (w =? Expr.InvalidWidth)
  /\ CreateArg_isExpr (CreateArg_ofWidth Expr.InvalidWidth) = true
  /\ CreateArg_expr (CreateArg_ofWidth Expr.InvalidWidth) = None
  /\ CreateArg_isWidth CreateArg_default = true.
Proof. repeat split. Qed.

(** ** The comparison operators *)

(** X3: when [compare] negates its result as its arguments are swapped,
    exactly one of [a < b], [a == b], [a > b] holds, [<=] is [<] or [==],
    [>=] is [>] or [==], [!=] is [<] or [>], and [==] is symmetric. *)
Theorem operators_consistent (cmp : Expr -> Expr -> Z) :
  (forall a b, cmp b a = - cmp a b) ->
  forall a b,
    ((operator_lt cmp a b = true /\ operator_eq cmp a b = false
      /\ operator_gt cmp a b = false)
     \/ (operator_lt cmp a b = false /\ operator_eq cmp a b = true
         /\ operator_gt cmp a b = false)
     \/ (operator_lt cmp a b = false /\ operator_eq cmp a b = false
         /\ operator_gt cmp a b = true))
    /\ operator_le cmp a b = operator_lt cmp a b || operator_eq cmp a b
    /\ operator_ge cmp a b = operator_gt cmp a b || operator_eq cmp a b
    /\ operator_ne cmp a b = operator_lt cmp a b || operator_gt cmp a b
    /\ operator_eq cmp a b = operator_eq cmp b a.
Proof.
  intros Hanti a b.
  unfold operator_le, operator_ge, operator_ne, operator_gt, operator_lt, operator_eq.
  rewrite (Hanti a b).
  destruct (Z.ltb_spec (cmp a b) 0), (Z.eqb_spec (cmp a b) 0),
    (Z.ltb_spec (- cmp a b) 0), (Z.eqb_spec (- cmp a b) 0);
    simpl; try lia; auto 10.
Qed.

Lemma operators_consistent_witness :
  operator_le compare one32 two32
  = operator_lt compare one32 two32 || operator_eq compare one32 two32.
Proof.
  apply (operators_consistent compare (proj1 compare_antisym_all) one32 two32).
Defined.

(** ** Contents comparisons *)

(** A comparison by one key and then by another. *)
Lemma lex_cmp3_spec (x y u v : Z) :
  ((x < y \/ (x = y /\ u < v)) /\ orElse (cmp3 x y) (cmp3 u v) = -1)
  \/ ((x = y /\ u = v) /\ orElse (cmp3 x y) (cmp3 u v) = 0)
  \/ ((y < x \/ (x = y /\ v < u)) /\ orElse (cmp3 x y) (cmp3 u v) = 1).
Proof.
  destruct (cmp3_spec x y) as [[? ->]|[[? ->]|[? ->]]];
    destruct (cmp3_spec u v) as [[? ->]|[[? ->]|[? ->]]];
    cbn; lia.
Qed.

(** X4: [ConstantExpr::compareContents] orders constants by width and then
    by unsigned value: its result is -1, 0 or 1, it is 0 exactly for equal
    constants, swapping the arguments negates it, and "less than" is
    transitive. *)
Theorem ConstantExpr_compareContents_total_order (a b c : APInt) :
  (ConstantExpr_compareContents a b = -1
   \/ ConstantExpr_compareContents a b = 0
   \/ ConstantExpr_compareContents a b = 1)
  /\ ConstantExpr_compareContents b a = - ConstantExpr_compareContents a b
  /\ (ConstantExpr_compareContents a b = 0 <-> a = b)
  /\ (ConstantExpr_compareContents a b = -1 <->
      BitWidth a < BitWidth b \/ (BitWidth a = BitWidth b /\ VAL a < VAL b))
  /\ (ConstantExpr_compareContents a b = -1 ->
      ConstantExpr_compareContents b c = -1 ->
      ConstantExpr_compareContents a c = -1).
Proof.
  rewrite !ConstantExpr_compareContents_spec.
  destruct a as [wa va], b as [wb vb], c as [wc vc]. cbn [BitWidth VAL].
  assert (Heq : mkAPInt wa va = mkAPInt wb vb <-> wa = wb /\ va = vb).
  { split; [intros [= -> ->]; auto | intros [-> ->]; reflexivity]. }
  rewrite Heq.
  destruct (lex_cmp3_spec wa wb va vb) as [[? ->]|[[? ->]|[? ->]]];
    destruct (lex_cmp3_spec wb wa vb va) as [[? ->]|[[? ->]|[? ->]]]; try lia;
    destruct (lex_cmp3_spec wb wc vb vc) as [[? ->]|[[? ->]|[? ->]]];
    destruct (lex_cmp3_spec wa wc va vc) as [[? ->]|[[? ->]|[? ->]]];
    repeat split; intros; lia.
Qed.

Lemma ConstantExpr_compareContents_total_order_witness :
  ConstantExpr_compareContents (APInt_ctor 32 1) (APInt_ctor 32 2) = -1.
Proof.
  apply (proj1 (proj2 (proj2 (proj2
           (ConstantExpr_compareContents_total_order
              (APInt_ctor 32 1) (APInt_ctor 32 2) (APInt_ctor 32 2)))))).
  right. split; [reflexivity | vm_compute; reflexivity].
Defined.

(** X5: [NotExpr::compareContents] returns the sign of the comparison of the
    two operands: 0 when they compare equal, -1 when the first is smaller,
    1 otherwise. *)
Theorem NotExpr_compareContents_is_sign (c : Z) :
  NotExpr_compareContents c = Z.sgn c.
Proof.
  unfold NotExpr_compareContents.
  destruct (Z.eqb_spec c 0) as [->|Hc]; [reflexivity|]. simpl.
  destruct (Z.ltb_spec c 0); lia.
Qed.

(** ** Children and classes *)

(** X6: for an index inside [0, getNumKids()), [getKid] of every class
    returns a child, never the null reference, and it is the child at that
    position. *)
Theorem getKid_in_range (e : Expr) (i : Z) :
  0 <= i < getNumKids e ->
  exists k, getKid e i = Some k /\ nth_error (kids e) (Z.to_nat i) = Some k.
Proof.
  intros Hi.
  assert (Hc : i = 0 \/ i = 1 \/ i = 2) by (destruct e; simpl in Hi; lia).
  destruct e; simpl in Hi; destruct Hc as [-> | [-> | ->]];
    try lia; eexists; split; reflexivity.
Qed.

Lemma getKid_in_range_witness :
  exists k, getKid (SelectExpr_alloc (CmpExpr_alloc UltExpr sampleWord one32) one32 two32) 2
            = Some k
            /\ nth_error (kids (SelectExpr_alloc (CmpExpr_alloc UltExpr sampleWord one32)
                                  one32 two32)) (Z.to_nat 2) = Some k.
Proof.
  apply (getKid_in_range
           (SelectExpr_alloc (CmpExpr_alloc UltExpr sampleWord one32) one32 two32) 2).
  simpl. lia.
Defined.

(** X7: a node has no children exactly when it is a constant; every other
    node has one, two or three, and [getNumKids] is the number of children
    that [getKid] enumerates. *)
Theorem terminal_iff_no_kids (e : Expr) :
  (getNumKids e = 0 <-> ConstantExpr_classof e = true)
  /\ (NonConstantExpr_classof e = true <-> 1 <= getNumKids e <= 3)
  /\ getNumKids e = Z.of_nat (length (kids e)).
Proof.
  destruct e; unfold NonConstantExpr_classof; simpl;
    repeat split; try lia; try discriminate; try reflexivity; auto.
Qed.

(** X8: the kind-range test [BinaryExpr::classof] accepts the nodes of the
    arithmetic and comparison classes and also every [NotExpr], whose kind
    lies inside the range although it has one child; every other node it
    accepts has two children. *)
Theorem BinaryExpr_classof_accepts_NotExpr (e : Expr) :
  (BinaryExpr_classof e = true <->
   (exists cls l r, e = BinaryExpr cls l r)
   \/ (exists cls l r, e = CmpExpr cls l r)
   \/ (exists x, e = NotExpr x))
  /\ (BinaryExpr_classof e = true -> getKind e <> Expr.Not -> getNumKids e = 2)
  /\ (forall x, BinaryExpr_classof (NotExpr_alloc x) = true
                /\ getNumKids (NotExpr_alloc x) = 1).
Proof.
  split; [|split].
  - split.
    + destruct e as [ | | | | | | |c ? ?|c ? ?|c ? ?]; unfold BinaryExpr_classof;
        simpl; try discriminate; try (destruct c; discriminate); eauto 6.
    + intros [(cls & l & r & ->) | [(cls & l & r & ->) | (x & ->)]];
        try destruct cls; reflexivity.
  - destruct e as [ | | | | | | |c ? ?|c ? ?|c ? ?]; unfold BinaryExpr_classof;
      simpl; try discriminate; try (destruct c; discriminate); auto.
    intros _ H. contradiction H. reflexivity.
  - intros x. split; reflexivity.
Qed.

Lemma BinaryExpr_classof_accepts_NotExpr_witness :
  getNumKids (BinaryExpr_alloc AddExpr one32 sampleWord) = 2.
Proof.
  apply (proj1 (proj2 (BinaryExpr_classof_accepts_NotExpr
                         (BinaryExpr_alloc AddExpr one32 sampleWord)))).
  - reflexivity.
  - discriminate.
Defined.

(** X9: the kind-range tests of the comparison and cast families are exact:
    [CmpExpr::classof] holds of the nodes of the comparison classes only,
    [CastExpr::classof] holds exactly where [needsResultType] is true,
    every node that [CmpExpr::classof] accepts is accepted by
    [BinaryExpr::classof], and no cast is. *)
Theorem kind_range_tests_exact (e : Expr) :
  (CmpExpr_classof e = true <-> exists cls l r, e = CmpExpr cls l r)
  /\ CastExpr_classof e = needsResultType e
  /\ (CmpExpr_classof e = true -> BinaryExpr_classof e = true)
  /\ (CastExpr_classof e = true -> BinaryExpr_classof e = false).
Proof.
  split; [|split; [|split]].
  - split; [apply CmpExpr_classof_inv|].
    intros (cls & l & r & ->). destruct cls; reflexivity.
  - destruct e as [ | | | | | | |c ? ?|c ? ?|c ? ?]; try reflexivity;
      destruct c; reflexivity.
  - intros H. apply CmpExpr_classof_inv in H as (cls & l & r & ->).
    destruct cls; reflexivity.
  - intros H. apply CastExpr_classof_inv in H as (cls & s & w & ->).
    destruct cls; reflexivity.
Qed.

Lemma kind_range_tests_exact_witness :
  BinaryExpr_classof (CmpExpr_alloc SleExpr sampleWord one32) = true.
Proof.
  apply (proj1 (proj2 (proj2 (kind_range_tests_exact
                                (CmpExpr_alloc SleExpr sampleWord one32))))).
  reflexivity.
Defined.

(** ** Predicates on constants *)

(** X10: on a constant, [isTrue] and [isFalse] never both hold, and one of
    them holds exactly when the width is [Bool]; on a boolean constant
    [isTrue] agrees with [isOne] and [isAllOnes], and [isFalse] with
    [isZero]; [isOne] holds exactly of the value 1, at every width. *)
Theorem ConstantExpr_predicates_agree (v : APInt) :
  APInt_wf v = true ->
  ConstantExpr_isTrue v && ConstantExpr_isFalse v = false
  /\ ConstantExpr_isTrue v || ConstantExpr_isFalse v
     = (ConstantExpr_getWidth v =? Expr.Bool)
  /\ (ConstantExpr_getWidth v = Expr.Bool ->
      ConstantExpr_isTrue v = ConstantExpr_isOne v
      /\ ConstantExpr_isTrue v = ConstantExpr_isAllOnes v
      /\ ConstantExpr_isFalse v = ConstantExpr_isZero v)
  /\ ConstantExpr_isOne v = (VAL v =? 1)
  /\ ConstantExpr_isZero v && ConstantExpr_isOne v = false.
Proof.
  intros Hwf. apply APInt_wf_range in Hwf.
  assert (Hone : ConstantExpr_isOne v = (VAL v =? 1)).
  { unfold ConstantExpr_isOne, ConstantExpr_getLimitedValue_default,
      ConstantExpr_getLimitedValue, APInt_getLimitedValue.
    change (2 ^ 64) with 18446744073709551616.
    destruct (Z.leb_spec 18446744073709551616 (VAL v)); simpl.
    - destruct (Z.eqb_spec (VAL v) 1); [lia | reflexivity].
    - destruct (Z.ltb_spec (18446744073709551616 - 1) (VAL v)); [lia | reflexivity]. }
  rewrite Hone.
  unfold ConstantExpr_isTrue, ConstantExpr_isFalse, ConstantExpr_isZero,
    ConstantExpr_isAllOnes, APInt_isMinValue, APInt_getBoolValue,
    APInt_isAllOnesValue, ConstantExpr_getWidth, APInt_getBitWidth, Expr.Bool.
  split; [|split; [|split; [|split]]].
  - destruct (BitWidth v =? 1), (VAL v =? 0); reflexivity.
  - destruct (BitWidth v =? 1), (VAL v =? 0); reflexivity.
  - intros H. rewrite H in *. change (2 ^ 1) with 2 in Hwf.
    assert (E : VAL v = 0 \/ VAL v = 1) by lia.
    destruct E as [E | E]; rewrite E; repeat split; reflexivity.
  - reflexivity.
  - destruct (Z.eqb_spec (VAL v) 0), (Z.eqb_spec (VAL v) 1); simpl; lia || reflexivity.
Qed.

Lemma ConstantExpr_predicates_agree_witness :
  ConstantExpr_isOne (APInt_ctor 128 1) = (VAL (APInt_ctor 128 1) =? 1).
Proof.
  apply (ConstantExpr_predicates_agree (APInt_ctor 128 1)). reflexivity.
Defined.

(** X11: [Expr::isTrue] and [Expr::isFalse] stop at their assertion on an
    expression whose width is not [Bool]; on a boolean expression that is
    not a constant both return false; [isTrue] returns true only on the
    boolean constant of a non-zero value, where [isFalse] returns false;
    [Expr::isZero] makes no assertion and holds exactly of the constants of
    value 0. *)
Theorem Expr_isTrue_isFalse_isZero (e : Expr) :
  (getWidth e <> Expr.Bool ->
   Expr_isTrue e = AssertionFailed "Invalid isTrue() call!"
   /\ Expr_isFalse e = AssertionFailed "Invalid isFalse() call!")
  /\ (getWidth e = Expr.Bool -> ConstantExpr_classof e = false ->
      Expr_isTrue e = Ret false /\ Expr_isFalse e = Ret false)
  /\ (Expr_isTrue e = Ret true <->
      exists v, e = ConstantExpr v /\ BitWidth v = Expr.Bool /\ VAL v <> 0)
  /\ (Expr_isTrue e = Ret true -> Expr_isFalse e = Ret false)
  /\ (Expr_isZero e = true <-> exists v, e = ConstantExpr v /\ VAL v = 0).
Proof.
  unfold Expr_isTrue, Expr_isFalse.
  split; [|split; [|split; [|split]]].
  - intros Hw. apply Z.eqb_neq in Hw. rewrite Hw. split; reflexivity.
  - intros Hw Hc. apply Z.eqb_eq in Hw. rewrite Hw.
    destruct e; try discriminate Hc; split; reflexivity.
  - split.
    + intros H. apply assert_bind_Ret in H as [Hw H]. apply Z.eqb_eq in Hw.
      destruct e; try discriminate H. injection H as H.
      unfold ConstantExpr_isTrue in H. apply andb_true_iff in H as [_ H].
      apply negb_true_iff, Z.eqb_neq in H. eauto.
    + intros (v & -> & Hw & Hv). cbn [getWidth].
      unfold ConstantExpr_isTrue, ConstantExpr_getWidth, APInt_getBitWidth.
      apply Z.eqb_neq in Hv. rewrite Hw, Hv. reflexivity.
  - intros H. apply assert_bind_Ret in H as [Hw H]. rewrite Hw.
    destruct e; try discriminate H. injection H as H. cbn.
    unfold ConstantExpr_isTrue in H. apply andb_true_iff in H as [H1 H2].
    unfold ConstantExpr_isFalse, APInt_getBoolValue. rewrite H1, H2. reflexivity.
  - split.
    + destruct e; try discriminate. intros H. apply Z.eqb_eq in H. eauto.
    + intros (v & -> & Hv). cbn. unfold ConstantExpr_isZero, APInt_isMinValue.
      rewrite Hv. reflexivity.
Qed.

Lemma Expr_isTrue_isFalse_isZero_witness :
  Expr_isTrue sampleWord = AssertionFailed "Invalid isTrue() call!"
  /\ Expr_isTrue (CmpExpr_alloc UltExpr sampleWord one32) = Ret false.
Proof.
  split.
  - apply (proj1 (Expr_isTrue_isFalse_isZero sampleWord)). discriminate.
  - apply (proj1 (proj2 (Expr_isTrue_isFalse_isZero
                           (CmpExpr_alloc UltExpr sampleWord one32))));
      reflexivity.
Defined.

(** X12: [getLimitedValue(Limit)] is the smaller of the value and the limit,
    also for a constant wider than 64 bits. *)
Theorem getLimitedValue_is_min (v : APInt) (Limit : Z) :
  0 <= Limit < 2 ^ 64 ->
  ConstantExpr_getLimitedValue v Limit = Z.min (VAL v) Limit.
Proof.
  intros HL. unfold ConstantExpr_getLimitedValue, APInt_getLimitedValue.
  destruct (Z.leb_spec (2 ^ 64) (VAL v)); simpl; [lia|].
  destruct (Z.ltb_spec Limit (VAL v)); lia.
Qed.

Lemma getLimitedValue_is_min_witness :
  ConstantExpr_getLimitedValue (APInt_ctor 128 (2 ^ 100)) 255 = 255.
Proof.
  rewrite (getLimitedValue_is_min (APInt_ctor 128 (2 ^ 100)) 255).
  - reflexivity.
  - vm_compute. split; [discriminate | reflexivity].
Defined.

(** X13: a constant allocated from a 64-bit value and a width of at most
    64 bits reads back, through [getZExtValue], as the value truncated to
    the width, and allocating again from what was read gives the same
    node. *)
Theorem alloc_getZExtValue_round_trip (v w bits : Z) :
  0 < w <= bits -> bits <= 64 ->
  exists value,
    ConstantExpr_alloc64 v w = ConstantExpr value
    /\ ConstantExpr_getZExtValue value bits = Ret (v mod 2 ^ w)
    /\ ConstantExpr_alloc64 (v mod 2 ^ w) w = ConstantExpr_alloc64 v w
    /\ (0 <= v < 2 ^ w -> ConstantExpr_getZExtValue value bits = Ret v).
Proof.
  intros Hw Hb. exists (APInt_ctor w v).
  assert (Hget : ConstantExpr_getZExtValue (APInt_ctor w v) bits = Ret (v mod 2 ^ w)).
  { unfold ConstantExpr_getZExtValue, ConstantExpr_getWidth, APInt_getBitWidth,
      APInt_getZExtValue, APInt_ctor. cbn [BitWidth VAL].
    destruct (Z.leb_spec w bits); [|lia]. destruct (Z.leb_spec w 64); [|lia].
    reflexivity. }
  split; [reflexivity|]. split; [exact Hget|]. split.
  - unfold ConstantExpr_alloc64, ConstantExpr_alloc, APInt_ctor.
    rewrite Z.mod_mod by (apply Z.pow_nonzero; lia). reflexivity.
  - intros Hv. rewrite Hget, Z.mod_small by exact Hv. reflexivity.
Qed.

Lemma alloc_getZExtValue_round_trip_witness :
  exists value,
    ConstantExpr_alloc64 300 8 = ConstantExpr value
    /\ ConstantExpr_getZExtValue value 64 = Ret 44.
Proof.
  destruct (alloc_getZExtValue_round_trip 300 8 64) as (value & H1 & H2 & _).
  - lia.
  - lia.
  - exists value. split; [exact H1 | exact H2].
Defined.

(** ** Construction of arrays *)

(** X14: the constructor of [Array] accepts every symbolic array, whatever
    the size; it rejects a list of initial values that holds a constant
    whose width is not the range width; and every constant of an array it
    returns is 8 bits wide. *)
Theorem Array_ctor_checks_value_widths (name : string) (_size : Z)
    (values : list APInt) :
  (values = [] ->
   exists a, Array_ctor name _size values = Ret a
             /\ isSymbolicArray a = true /\ Array_size a = wrap32 _size)
  /\ (forall c, In c values -> ConstantExpr_getWidth c <> Expr.Int8 ->
        returns (Array_ctor name _size values) = false)
  /\ (forall a, Array_ctor name _size values = Ret a ->
        forall c, In c (Array_constantValues a) -> ConstantExpr_getWidth c = getRange a).
Proof.
  split; [|split].
  - intros ->. eexists. split; [reflexivity|]. split; reflexivity.
  - intros c Hin Hw. unfold Array_ctor.
    destruct (isSymbolicArray _ || _); [|reflexivity].
    cbn [assert_ mbind Outcome_bind].
    assert (Hf : forallb (fun it => ConstantExpr_getWidth it
                          =? getRange {| Array_name := name;
                                         Array_size := wrap32 _size;
                                         Array_constantValues := values |})
                   values = false).
    { apply not_true_iff_false. intros Hall.
      rewrite forallb_forall in Hall. specialize (Hall c Hin).
      apply Z.eqb_eq in Hall. apply Hw. exact Hall. }
    rewrite Hf. reflexivity.
  - intros a H. unfold Array_ctor in H.
    apply assert_bind_Ret in H as [_ H]. apply assert_bind_Ret in H as [Hall H].
    injection H as <-. cbn [Array_constantValues].
    intros c Hin. rewrite forallb_forall in Hall. specialize (Hall c Hin).
    apply Z.eqb_eq in Hall. exact Hall.
Qed.

Lemma Array_ctor_checks_value_widths_witness :
  returns (Array_ctor "wide" 1 [APInt_ctor 16 7]) = false.
Proof.
  apply (proj1 (proj2 (Array_ctor_checks_value_widths "wide" 1 [APInt_ctor 16 7]))
           (APInt_ctor 16 7)).
  - left. reflexivity.
  - discriminate.
Defined.

(** X15: the constructor of [Array] keeps the size modulo [2^32] (the
    [uint64_t] argument is stored in an [unsigned] member): two sizes that
    differ by a multiple of [2^32] construct the same array, and are
    accepted with the same lists of constants. *)
Theorem Array_size_is_kept_modulo_2_32 (name : string) (_size k : Z)
    (values : list APInt) :
  Array_ctor name (_size + k * 2 ^ 32) values = Array_ctor name _size values.
Proof.
  unfold Array_ctor, wrap32. rewrite Z.mod_add by (apply Z.pow_nonzero; lia).
  reflexivity.
Qed.

(** ** [rebuild] on non-terminals *)

(** X16: [rebuild] hands the class, the contents and the given children of
    a node on to the constructor: when the constructors allocate what they
    are given, rebuilding a node that is not a constant from its own
    children returns the node. *)
Theorem rebuild_with_alloc_round_trip (e : Expr) :
  constructed e = true -> NonConstantExpr_classof e = true ->
  rebuild allocCreators e (kids e) = Ret e.
Proof.
  intros Hc Hn. destruct e; try discriminate Hn; try reflexivity.
  cbn [constructed] in Hc. apply andb_true_iff in Hc as [Hc _].
  apply andb_true_iff in Hc as [Hw _]. apply Z.eqb_eq in Hw.
  cbn. unfold ConcatExpr_alloc, ConcatExpr_ctor. rewrite <- Hw. reflexivity.
Qed.

Lemma rebuild_with_alloc_round_trip_witness :
  rebuild allocCreators (ExtractExpr_alloc sampleWord 8 16)
    (kids (ExtractExpr_alloc sampleWord 8 16))
  = Ret (ExtractExpr_alloc sampleWord 8 16).
Proof.
  apply (rebuild_with_alloc_round_trip (ExtractExpr_alloc sampleWord 8 16));
    reflexivity.
Defined.

(** X17: [rebuild] reads the first [getNumKids()] entries of the array of
    new children and no others: entries after them do not change its
    result, whatever the constructors are. *)
Theorem rebuild_reads_getNumKids_entries (C : Creators) (e : Expr)
    (ks further : list Expr) :
  getNumKids e <= Z.of_nat (length ks) ->
  rebuild C e (ks ++ further) = rebuild C e ks.
Proof.
  intros Hn.
  destruct e; simpl in Hn; try reflexivity;
    destruct ks as [|k0 [|k1 [|k2 ks]]]; simpl in Hn; try lia; reflexivity.
Qed.

Lemma rebuild_reads_getNumKids_entries_witness :
  rebuild allocCreators (BinaryExpr_alloc AddExpr one32 sampleWord)
    ([two32; sampleWord] ++ [sampleByte])
  = rebuild allocCreators (BinaryExpr_alloc AddExpr one32 sampleWord)
      [two32; sampleWord].
Proof.
  apply (rebuild_reads_getNumKids_entries allocCreators
           (BinaryExpr_alloc AddExpr one32 sampleWord) [two32; sampleWord]
           [sampleByte]).
  simpl. lia.
Defined.

(** ** Configurations of the parametric tree *)

(** X18: the copy constructor of [ParaConfig] copies every member, the two
    flags included; building a configuration again from its five
    constructor arguments gives it back only when both flags are false. *)
Theorem ParaConfig_copy_keeps_every_member (config : ParaConfig) :
  ParaConfig_copy config = config
  /\ (ParaConfig_ctor (ParaConfig_sym_bid config) (ParaConfig_sym_tid config)
        (ParaConfig_cond config) (ParaConfig_start config) (ParaConfig_end config)
      = config
      <-> ParaConfig_syncEncounter config = false
          /\ ParaConfig_postDomEncounter config = false).
Proof.
  destruct config as [b t c s e sy pd]. split; [reflexivity|].
  unfold ParaConfig_ctor. cbn. split.
  - intros [= <- <-]. auto.
  - intros [-> ->]. reflexivity.
Qed.
